(** * ABNT citation formatter (src/citation_formatter.py, class ABNTFomatter)

    A shallow embedding of the citation formatting engine: the author
    normaliser [_format_authors_abnt], the year extractor
    [_get_year_from_date], the in-text citation builder
    [format_in_text_citation], the bibliography entry composer
    [format_bibliography_entry] and the bibliography generator
    [generate_bibliography] with its [sort_key].

    Python strings are sequences of Unicode code points, and the code measures
    and slices them as such ([len(first_name) == 1], [date_str[:4]]), so a
    string is a list of code points here.  The metadata dictionaries are
    records of optional fields: [None] is a missing key, which is what
    [dict.get] distinguishes from an empty string. *)

From Stdlib Require Import String Ascii.
From Stdlib Require Import List Arith NArith Bool Lia Permutation Sorted.
Import ListNotations.

#[local] Open Scope N_scope.
#[local] Open Scope list_scope.

(** ** Python strings *)

Definition char : Type := N.
Definition str : Type := list char.

(** An ASCII literal as a sequence of code points. *)
Definition lit (s : string) : str :=
  map N_of_ascii (list_ascii_of_string s).

Definition is_empty (s : str) : bool :=
  match s with
  | [] => true
  | _ :: _ => false
  end.

Fixpoint str_eqb (a b : str) : bool :=
  match a, b with
  | [], [] => true
  | x :: a', y :: b' => (x =? y) && str_eqb a' b'
  | _, _ => false
  end.

(** [s.startswith(p)] *)
Fixpoint startswith (p s : str) : bool :=
  match p, s with
  | [], _ => true
  | _ :: _, [] => false
  | x :: p', y :: s' => (x =? y) && startswith p' s'
  end.

(** [s.endswith(p)] *)
Definition endswith (p s : str) : bool :=
  startswith (rev p) (rev s).

(** [x in s] for strings: [x] occurs as a contiguous run of [s]. *)
Fixpoint contains (x s : str) : bool :=
  startswith x s ||
  match s with
  | [] => false
  | _ :: s' => contains x s'
  end.

(** [sep.join(l)] *)
Fixpoint join (sep : str) (l : list str) : str :=
  match l with
  | [] => []
  | x :: l' =>
      match l' with
      | [] => x
      | _ :: _ => x ++ sep ++ join sep l'
      end
  end.

(** [s.split(sep)] for a one-character separator: empty pieces are kept and
    the result is never empty. *)
Fixpoint split_on_aux (sep : char) (cur s : str) : list str :=
  match s with
  | [] => [cur]
  | c :: s' =>
      if c =? sep then cur :: split_on_aux sep [] s'
      else split_on_aux sep (cur ++ [c]) s'
  end.

Definition split_on (sep : char) (s : str) : list str :=
  split_on_aux sep [] s.

(** The code points for which [str.isspace] holds (CPython's
    [_PyUnicode_IsWhitespace]); [str.split()] and [str.strip()] use it. *)
Definition isspace (c : char) : bool :=
  ((9 <=? c) && (c <=? 13)) || ((28 <=? c) && (c <=? 32)) ||
  (c =? 133) || (c =? 160) || (c =? 5760) ||
  ((8192 <=? c) && (c <=? 8202)) || (c =? 8232) || (c =? 8233) ||
  (c =? 8239) || (c =? 8287) || (c =? 12288).

(** [s.split()]: pieces between runs of whitespace, no empty piece. *)
Fixpoint split_ws_aux (cur s : str) : list str :=
  match s with
  | [] => if is_empty cur then [] else [cur]
  | c :: s' =>
      if isspace c then
        if is_empty cur then split_ws_aux [] s'
        else cur :: split_ws_aux [] s'
      else split_ws_aux (cur ++ [c]) s'
  end.

Definition split_ws (s : str) : list str := split_ws_aux [] s.

Fixpoint lstrip (s : str) : str :=
  match s with
  | [] => []
  | c :: s' => if isspace c then lstrip s' else s
  end.

(** [s.strip()] *)
Definition strip (s : str) : str :=
  rev (lstrip (rev (lstrip s))).

(** [s.replace(old, new)] for a non-empty [old]: occurrences are replaced
    from left to right and do not overlap; the text produced by a
    replacement is not scanned again.  [skip] counts the characters of a
    matched occurrence that are still to be passed over. *)
Fixpoint replace_aux (old new : str) (skip : nat) (s : str) : str :=
  match s with
  | [] => []
  | c :: s' =>
      match skip with
      | S k => replace_aux old new k s'
      | O =>
          if startswith old s
          then new ++ replace_aux old new (length old - 1) s'
          else c :: replace_aux old new 0 s'
      end
  end.

Definition replace (old new s : str) : str := replace_aux old new 0 s.

(** Comparison of strings, as Python's [<] on [str]: lexicographic on code
    points, a proper prefix being smaller. *)
Fixpoint str_compare (a b : str) : comparison :=
  match a, b with
  | [], [] => Eq
  | [], _ :: _ => Lt
  | _ :: _, [] => Gt
  | x :: a', y :: b' =>
      match x ?= y with
      | Eq => str_compare a' b'
      | c => c
      end
  end.

(** *** Unicode tables

    [str.upper], [str.isdigit] and [int] depend on the Unicode character
    database.  On ASCII they are written out below; what they do on the other
    code points is taken from a record, so that every general statement holds
    whatever the tables are. *)
Record Unicode : Type := {
  (** the full uppercase mapping of a code point above 127 *)
  uni_upper : char -> str;
  (** whether a code point above 127 is a digit for [str.isdigit] *)
  uni_digit : char -> bool;
  (** whether [int(s)] succeeds (otherwise it raises ValueError) *)
  int_parses : str -> bool
}.

(** The tables on Latin-1 (code points below 256), enough for Portuguese
    text: micro sign, sharp s and y-diaeresis have their uppercase outside
    Latin-1, the superscripts one, two and three are digits.  Above Latin-1
    these tables leave a character as it is and take none for a digit, which
    is not what CPython does: the instance serves to evaluate examples whose
    text is Latin-1, and no general statement depends on it. *)
Definition latin1_upper (c : char) : str :=
  if c =? 181 then [924]
  else if c =? 223 then [83; 83]
  else if c =? 255 then [376]
  else if (224 <=? c) && (c <=? 254) && negb (c =? 247) then [c - 32]
  else [c].

Definition latin1_digit (c : char) : bool :=
  (c =? 178) || (c =? 179) || (c =? 185).

Definition ascii_digit (c : char) : bool := (48 <=? c) && (c <=? 57).

(** Decimal digits with single underscores between them. *)
Fixpoint int_digits (after_digit : bool) (s : str) : bool :=
  match s with
  | [] => after_digit
  | c :: r =>
      if ascii_digit c then int_digits true r
      else if (c =? 95) && after_digit then
        match r with
        | d :: _ => ascii_digit d && int_digits false r
        | [] => false
        end
      else false
  end.

(** [int(s)] on ASCII digits: blanks around, an optional sign, digits.
    CPython also accepts the decimal digits of other scripts and refuses
    numerals of more than 4300 digits; the examples have no edition of that
    kind. *)
Definition ascii_int_parses (s : str) : bool :=
  match strip s with
  | c :: r => if (c =? 43) || (c =? 45) then int_digits false r
              else int_digits false (c :: r)
  | [] => false
  end.

Definition latin1 : Unicode := {|
  uni_upper := latin1_upper;
  uni_digit := latin1_digit;
  int_parses := ascii_int_parses
|}.

(** ** Metadata records *)

(** An author dictionary: [{"lastName": .., "firstName": ..}] or
    [{"name": ..}]. *)
Record Author : Type := {
  lastName : option str;
  firstName : option str;
  name : option str
}.

(** An item dictionary, with the keys the formatter reads.  A missing
    ["authors"] key and an empty list are the same to the code (it reads
    [item.get("authors", [])] or tests it for truth), so [authors] is a
    list. *)
Record Item : Type := {
  itemType : option str;
  authors : list Author;
  title : option str;
  subtitle : option str;
  publicationTitle : option str;
  journalPlace : option str;
  volume : option str;
  issue : option str;
  pages : option str;
  date : option str;
  edition : option str;
  place : option str;
  publisher : option str;
  series : option str;
  seriesNumber : option str;
  url : option str;
  accessDate : option str;
  doi : option str;
  local_pdf_path : option str
}.

(** [d.get(k, default)] *)
Definition get_or (o : option str) (default : str) : str :=
  match o with
  | Some s => s
  | None => default
  end.

(** The truth value of [d.get(k)]: the key is there and its string is not
    empty. *)
Definition truthy (o : option str) : bool :=
  negb (is_empty (get_or o [])).

(** [d.get(k) == s] *)
Definition field_is (o : option str) (s : str) : bool :=
  match o with
  | Some v => str_eqb v s
  | None => false
  end.

(** The last element, [l[-1]], and what is before it, [l[:-1]]. *)
Definition last_of {A : Type} (l : list A) (d : A) : A := last l d.
Definition but_last {A : Type} (l : list A) : list A := removelast l.

(** [l[-2:]] *)
Definition last_two {A : Type} (l : list A) : list A :=
  skipn (length l - 2) l.

Section Formatter.

Variable U : Unicode.

(** [s.upper()], character by character. *)
Definition upper_char (c : char) : str :=
  if c <? 128 then
    if (97 <=? c) && (c <=? 122) then [c - 32] else [c]
  else uni_upper U c.

Definition upper (s : str) : str := flat_map upper_char s.

(** [s.isdigit()]: not empty and every character a digit. *)
Definition isdigit_char (c : char) : bool :=
  if c <? 128 then ascii_digit c else uni_digit U c.

Definition isdigit (s : str) : bool :=
  negb (is_empty s) && forallb isdigit_char s.

(** *** _format_authors_abnt *)

(** The surname and given name the loop body settles on for one author:
    [lastName] and [firstName], or the split of [name] when there is no
    [lastName]. *)
Definition author_names (author : Author) : str * str :=
  let last_name := get_or (lastName author) [] in
  let first_name := get_or (firstName author) [] in
  let full_name := get_or (name author) [] in
  if is_empty last_name && negb (is_empty full_name) then
    let parts := split_on 32 full_name in
    if (1 <? length parts)%nat
    then (last_of parts [], join (lit " ") (but_last parts))
    else (hd [] parts, [])
  else (last_name, first_name).

(** One turn of the loop: the list [formatted_authors] after [author]. *)
Definition format_author_step (for_citation : bool)
    (formatted_authors : list str) (author : Author) : list str :=
  let '(last_name, first_name) := author_names author in
  if is_empty last_name then formatted_authors
  else
    let last_name_upper := upper last_name in
    if for_citation then formatted_authors ++ [last_name_upper]
    else if negb (is_empty first_name) then
      if (length first_name =? 1)%nat ||
         ((length first_name =? 2)%nat && endswith (lit ".") first_name)
      then formatted_authors ++
             [last_name_upper ++ lit ", " ++
              replace (lit ".") [] (upper first_name) ++ lit "."]
      else formatted_authors ++
             [last_name_upper ++ lit ", " ++ first_name ++ lit "."]
    else formatted_authors ++ [last_name_upper ++ lit "."].

Definition _format_authors_abnt (authors : list Author)
    (for_citation : bool) : str :=
  if (length authors =? 0)%nat then []
  else
    let formatted_authors :=
      fold_left (format_author_step for_citation) authors [] in
    let n := length formatted_authors in
    if (n =? 0)%nat then []
    else if for_citation then
      if (n =? 1)%nat then nth 0 formatted_authors []
      else if (n =? 2)%nat then
        nth 0 formatted_authors [] ++ lit "; " ++ nth 1 formatted_authors []
      else if (3 <=? n)%nat then
        nth 0 formatted_authors [] ++ lit " et al."
      else [] (* no branch of the source is left: [n] is 1, 2 or at least 3 *)
    else join (lit "; ") formatted_authors.

(** *** _get_year_from_date *)

Definition _get_year_from_date (date_str : option str) : option str :=
  match date_str with
  | None => None
  | Some s =>
      if is_empty s then None
      else if (4 <=? length s)%nat && isdigit (firstn 4 s)
      then Some (firstn 4 s)
      else None
  end.

(** [x or default]: [x] when it is a non-empty string. *)
Definition or_default (o : option str) (default : str) : str :=
  if truthy o then get_or o [] else default.

(** *** format_in_text_citation *)

(** [author_str] when the fallback block has run: the citation-mode author
    string, or the first words of a webpage's title, or the publisher. *)
Definition citation_author_str (item_metadata : Item) : str :=
  let authors := authors item_metadata in
  let author_str := _format_authors_abnt authors true in
  if is_empty author_str then
    if field_is (itemType item_metadata) (lit "webpage")
       && truthy (title item_metadata)
    then
      let title_words := split_ws (upper (get_or (title item_metadata) [])) in
      let author_str := join (lit " ") (firstn 3 title_words) in
      if (3 <? length title_words)%nat then author_str ++ lit "..."
      else author_str
    else if truthy (publisher item_metadata) && (length authors =? 0)%nat
    then upper (get_or (publisher item_metadata) [])
    else author_str
  else author_str.

Definition format_in_text_citation (item_metadata : Item)
    (page : option str) : str :=
  let year := _get_year_from_date (date item_metadata) in
  let author_str := citation_author_str item_metadata in
  let year_str := or_default year (lit "s.d.") in
  if is_empty author_str && negb (truthy year) then lit "[s.n.]"
  else
    let citation_parts := [] in
    let citation_parts :=
      if negb (is_empty author_str) then citation_parts ++ [author_str]
      else citation_parts in
    let citation_parts := citation_parts ++ [year_str] in
    let citation_parts :=
      if truthy page then citation_parts ++ [lit "p. " ++ get_or page []]
      else citation_parts in
    lit "(" ++ join (lit ", ") citation_parts ++ lit ")".

(** *** format_bibliography_entry

    The function appends to the list [parts] block after block; each block
    is a function from the list before it to the list after it, and
    [entry_start_is_title] is the flag the first block sets. *)

(** Authors, or publisher, or title: the list [parts] and the flag after
    the first block. *)
Definition entry_point_block (item : Item) : list str * bool :=
  let author_str := _format_authors_abnt (authors item) false in
  if negb (is_empty author_str) then ([author_str], false)
  else if truthy (publisher item) && (length (authors item) =? 0)%nat
  then ([upper (get_or (publisher item) []) ++ lit "."], false)
  else if field_is (itemType item) (lit "webpage") && truthy (title item)
  then ([upper (get_or (title item) []) ++ lit "."], true)
  else if truthy (title item)
  then ([upper (get_or (title item) []) ++ lit "."], true)
  else ([lit "[S.A.]"], false).

(** Title and subtitle. *)
Definition title_block (item : Item) (entry_start_is_title : bool)
    (parts : list str) : list str :=
  if negb entry_start_is_title then
    let title := get_or (title item) (lit "[S.T.]") in
    let subtitle := get_or (subtitle item) [] in
    let title :=
      if negb (is_empty subtitle) then title ++ lit ": " ++ subtitle
      else title in
    let item_type := get_or (itemType item) (lit "document") in
    if str_eqb item_type (lit "journalArticle") then parts ++ [title ++ lit "."]
    else if str_eqb item_type (lit "book")
    then parts ++ [lit "**" ++ title ++ lit "**."]
    else parts ++ [title ++ lit "."]
  else parts.

(** Journal title, place, volume, issue and pages. *)
Definition journal_block (item : Item) (parts : list str) : list str :=
  if field_is (itemType item) (lit "journalArticle") then
    let journal_title := get_or (publicationTitle item) (lit "[S.J.]") in
    let parts := parts ++ [lit "**" ++ journal_title ++ lit "**"] in
    let parts :=
      if truthy (journalPlace item)
      then parts ++ [get_or (journalPlace item) [] ++ lit ","]
      else parts in
    let parts :=
      if truthy (volume item)
      then parts ++ [lit "v. " ++ get_or (volume item) [] ++ lit ","]
      else parts in
    let parts :=
      if truthy (issue item)
      then parts ++ [lit "n. " ++ get_or (issue item) [] ++ lit ","]
      else parts in
    if truthy (pages item) then
      let pages := get_or (pages item) [] in
      let pages :=
        if negb (startswith (lit "p.") pages)
           && negb (startswith (lit "f.") pages)
        then lit "p. " ++ pages
        else pages in
      parts ++ [pages ++ lit ","]
    else parts
  else parts.

(** Edition; [int(edition)] raising ValueError is the [except] branch. *)
Definition edition_block (item : Item) (parts : list str) : list str :=
  if truthy (edition item) && field_is (itemType item) (lit "book") then
    let edition := get_or (edition item) [] in
    if int_parses U edition then parts ++ [edition ++ lit ". ed."]
    else parts ++ [edition ++ lit "."]
  else parts.

Definition book_or_report (item : Item) : bool :=
  field_is (itemType item) (lit "book")
  || field_is (itemType item) (lit "report").

(** Place of publication. *)
Definition place_block (item : Item) (entry_start_is_title : bool)
    (parts : list str) : list str :=
  if book_or_report item then
    if negb entry_start_is_title || negb (length (authors item) =? 0)%nat
    then parts ++ [get_or (place item) (lit "[S.l.]") ++ lit ":"]
    else parts
  else parts.

(** Publisher. *)
Definition publisher_block (item : Item) (entry_start_is_title : bool)
    (parts : list str) : list str :=
  if book_or_report item then
    if negb entry_start_is_title || negb (length (authors item) =? 0)%nat
    then parts ++ [get_or (publisher item) (lit "[s.n.]") ++ lit ","]
    else parts
  else parts.

(** [self._get_year_from_date(item.get("date")) or "s.d."] *)
Definition entry_year (item : Item) : str :=
  or_default (_get_year_from_date (date item)) (lit "s.d.").

(** Year of publication: appended unless one of the last two parts has it;
    then a comma that ends the last part becomes a period. *)
Definition year_block (item : Item) (parts : list str) : list str :=
  let year := entry_year item in
  if negb (existsb (contains year) (last_two parts))
  then parts ++ [year ++ lit "."]
  else if endswith (lit ",") (last_of parts [])
  then but_last parts ++ [but_last (last_of parts []) ++ lit "."]
  else parts.

(** Series. *)
Definition series_block (item : Item) (parts : list str) : list str :=
  if truthy (series item) then
    let series_info := get_or (series item) [] in
    let series_info :=
      if truthy (seriesNumber item)
      then series_info ++ lit ", " ++ get_or (seriesNumber item) []
      else series_info in
    parts ++ [lit "(" ++ series_info ++ lit ")."]
  else parts.

(** "Disponível em:", with its i-acute (code point 237). *)
Definition disponivel_em : str := lit "Dispon" ++ [237] ++ lit "vel em: <".

(** URL and access date. *)
Definition url_block (item : Item) (parts : list str) : list str :=
  if truthy (url item) then
    let parts := parts ++ [disponivel_em ++ get_or (url item) [] ++ lit ">."] in
    let access_date := get_or (accessDate item) [] in
    if negb (is_empty access_date)
    then parts ++ [lit "Acesso em: " ++ access_date ++ lit "."]
    else parts ++ [lit "Acesso em: [informar data de acesso]."]
  else parts.

(** DOI, unless the URL has it. *)
Definition doi_block (item : Item) (parts : list str) : list str :=
  if truthy (doi item) then
    let doi := get_or (doi item) [] in
    if negb (truthy (url item) && contains doi (get_or (url item) []))
    then parts ++ [lit "DOI: " ++ doi ++ lit "."]
    else parts
  else parts.

(** Link to the local PDF. *)
Definition download_block (item : Item) (include_download_link : bool)
    (parts : list str) : list str :=
  if include_download_link && truthy (local_pdf_path item)
  then parts ++ [lit "[Download Local: " ++ get_or (local_pdf_path item) []
                 ++ lit "]"]
  else parts.

(** The list [parts] when the year block is reached. *)
Definition parts_before_year (item : Item) : list str :=
  let '(parts, entry_start_is_title) := entry_point_block item in
  let parts := title_block item entry_start_is_title parts in
  let parts := journal_block item parts in
  let parts := edition_block item parts in
  let parts := place_block item entry_start_is_title parts in
  publisher_block item entry_start_is_title parts.

(** The list [parts] when all blocks have run. *)
Definition entry_parts (item : Item) (include_download_link : bool)
    : list str :=
  let parts := parts_before_year item in
  let parts := year_block item parts in
  let parts := series_block item parts in
  let parts := url_block item parts in
  let parts := doi_block item parts in
  download_block item include_download_link parts.

(** [final_str.endswith((".", "]", ")", "?", "!"))] *)
Definition ends_terminal (s : str) : bool :=
  endswith (lit ".") s || endswith (lit "]") s || endswith (lit ")") s
  || endswith (lit "?") s || endswith (lit "!") s.

(** The joining and the punctuation clean-up that end the function. *)
Definition finish_entry (parts : list str) : str :=
  let final_str :=
    strip (join (lit " ") (filter (fun p => negb (is_empty p)) parts)) in
  let final_str := replace (lit " ,") (lit ",") final_str in
  let final_str := replace (lit " .") (lit ".") final_str in
  let final_str := replace (lit " :") (lit ":") final_str in
  let final_str := replace (lit ",.") (lit ".") final_str in
  let final_str := replace (lit "..") (lit ".") final_str in
  let final_str := replace (lit ":,") (lit ":") final_str in
  let final_str := replace (lit ";,") (lit ";") final_str in
  let final_str := replace (lit "  ") (lit " ") final_str in
  let final_str :=
    if negb (ends_terminal final_str) then final_str ++ lit "."
    else final_str in
  let final_str :=
    if endswith (lit "].") final_str || endswith (lit ").") final_str
    then but_last final_str
    else final_str in
  strip final_str.

Definition format_bibliography_entry (item : Item)
    (include_download_link : bool) : str :=
  finish_entry (entry_parts item include_download_link).

(** *** generate_bibliography *)

Definition sort_key (item_data : Item) : str * str * str :=
  let authors_list := authors item_data in
  let year_val :=
    or_default
      (_get_year_from_date (Some (get_or (date item_data) (lit "0000"))))
      (lit "0000") in
  let entry_point :=
    match authors_list with
    | first_author :: _ =>
        let last_name := upper (get_or (lastName first_author) []) in
        let last_name :=
          if is_empty last_name && truthy (name first_author) then
            let name_parts := split_ws (get_or (name first_author) []) in
            if negb (length name_parts =? 0)%nat
            then upper (last_of name_parts [])
            else []
          else last_name in
        if negb (is_empty last_name) then last_name else lit "[S.A.]"
    | [] =>
        if truthy (publisher item_data)
        then upper (get_or (publisher item_data) [])
        else if truthy (title item_data)
        then upper (get_or (title item_data) [])
        else lit "[S.A.]"
    end in
  (entry_point, year_val, upper (get_or (title item_data) [])).

End Formatter.

(** Python compares the key tuples component by component: the first
    components that differ decide. *)
Definition key_compare (k1 k2 : str * str * str) : comparison :=
  let '(e1, y1, t1) := k1 in
  let '(e2, y2, t2) := k2 in
  match str_compare e1 e2 with
  | Eq =>
      match str_compare y1 y2 with
      | Eq => str_compare t1 t2
      | c => c
      end
  | c => c
  end.

(** [k1 < k2] *)
Definition key_lt (k1 k2 : str * str * str) : bool :=
  match key_compare k1 k2 with
  | Lt => true
  | _ => false
  end.

(** [sorted(items, key=key)]: Python's sort is stable and decides by [<] on
    the keys alone, which fixes its result; insertion from the right computes
    it.  An element goes before the first one whose key is not smaller than
    its own. *)
Section Sorted.

Variable A : Type.
Variable key : A -> str * str * str.

Fixpoint insert_sorted (x : A) (l : list A) : list A :=
  match l with
  | [] => [x]
  | y :: l' =>
      if key_lt (key y) (key x) then y :: insert_sorted x l'
      else x :: l
  end.

Fixpoint sorted (l : list A) : list A :=
  match l with
  | [] => []
  | x :: l' => insert_sorted x (sorted l')
  end.

End Sorted.

Arguments insert_sorted {A} key x l.
Arguments sorted {A} key l.

Definition generate_bibliography (U : Unicode) (items : list Item)
    (include_download_links : bool) : str :=
  if (length items =? 0)%nat then []
  else
    let sorted_items := sorted (sort_key U) items in
    let bib_entries :=
      map (fun item_data =>
             format_bibliography_entry U item_data include_download_links)
          sorted_items in
    join [10; 10] bib_entries.

(** ** Definitions for the statements

    What the statements below are written with: occurrence of a string in
    another, the surname the loop of the normaliser settles on and the one
    section 4.1 of the specification describes, the title segment of section
    4.3, the last two parts of a list, the order on keys of section 4.4. *)

(** [x] occurs in [s]. *)
Definition occurs_in (x s : str) : Prop := exists a b, s = a ++ x ++ b.

(** The surname the loop of [_format_authors_abnt] settles on for an
    author: [lastName], and without it the last piece of [name] cut at single
    spaces, as [full_name.split(" ")] cuts it; it is empty when there is
    neither, and also when [name] ends with a space.  Section 4.1 of the
    specification cuts [name] at whitespace instead: that is [spec_surname]
    below, and the two differ on such names. *)
Definition surname (a : Author) : str :=
  if truthy (lastName a) then get_or (lastName a) []
  else if truthy (name a) then last (split_on 32 (get_or (name a) [])) []
  else [].

(** The surname of section 4.1 of the specification: [lastName], and
    without it the last of the words of [name], the words being what stands
    between runs of whitespace; empty when there is none. *)
Definition spec_surname (a : Author) : str :=
  if truthy (lastName a) then get_or (lastName a) []
  else last (split_ws (get_or (name a) [])) [].


(** [p] is the last part of [parts], or the one before the last. *)
Definition one_of_last_two (p : str) (parts : list str) : Prop :=
  (exists front, parts = front ++ [p]) \/
  (exists front q, parts = front ++ [p; q]).


(** The parts the citation is joined from. *)
Definition citation_parts_of (a : str) (year : option str)
    (page : option str) : list str :=
  (if is_empty a then [] else [a]) ++
  [match year with Some y => y | None => lit "s.d." end] ++
  match page with
  | Some (c :: p) => [lit "p. " ++ c :: p]
  | _ => []
  end.

(** The title segment as section 4.3 step 2 of the specification renders
    it: title and subtitle, in bold for a book, closed by a period. *)
Definition title_segment (item : Item) : str :=
  let t := get_or (title item) (lit "[S.T.]") in
  let t :=
    if truthy (subtitle item)
    then t ++ lit ": " ++ get_or (subtitle item) []
    else t in
  if field_is (itemType item) (lit "book") then lit "**" ++ t ++ lit "**."
  else t ++ lit ".".

(** The blocks that follow the title block, in the order of the source. *)
Definition later_blocks (U : Unicode) (item : Item)
    (entry_start_is_title include_download_link : bool)
    (parts : list str) : list str :=
  download_block item include_download_link
    (doi_block item
       (url_block item
          (series_block item
             (year_block U item
                (publisher_block item entry_start_is_title
                   (place_block item entry_start_is_title
                      (edition_block U item
                         (journal_block item parts)))))))).

(** A list of parts that begins with [lead] and whose first part the year
    block cannot rewrite. *)
Definition keeps_lead (lead : str) (parts : list str) : Prop :=
  exists rest,
    parts = lead :: rest /\ (rest <> [] \/ endswith (lit ",") lead = false).

(** A block that only appends. *)
Definition appends (block : list str -> list str) : Prop :=
  forall parts, exists suffix, block parts = parts ++ suffix.

(** The lexicographic order on strings: the first code points that differ
    decide, and a proper prefix comes first. *)
Inductive lex_lt : str -> str -> Prop :=
| lex_lt_prefix : forall c b, lex_lt [] (c :: b)
| lex_lt_head : forall x y a b, x < y -> lex_lt (x :: a) (y :: b)
| lex_lt_tail : forall x a b, lex_lt a b -> lex_lt (x :: a) (x :: b).

Definition lex_le (a b : str) : Prop := lex_lt a b \/ a = b.

(** The order on keys [(entry_point, year, title)], component by component
    from the left. *)
Definition key_le (k1 k2 : str * str * str) : Prop :=
  let '(e1, y1, t1) := k1 in
  let '(e2, y2, t2) := k2 in
  lex_lt e1 e2 \/
  (e1 = e2 /\ (lex_lt y1 y2 \/ (y1 = y2 /\ lex_le t1 t2))).

(** The items of key [k], for the stability of the sort. *)
Definition same_key {A : Type} (key : A -> str * str * str)
    (k : str * str * str) (x : A) : bool :=
  match key_compare (key x) k with
  | Eq => true
  | _ => false
  end.

(** The characters the entry may end with: period, closing bracket,
    closing parenthesis, question mark, exclamation mark. *)
Definition terminal (c : char) : bool :=
  (46 =? c) || (93 =? c) || (41 =? c) || (63 =? c) || (33 =? c).

(** The eight texts the punctuation pass replaces. *)
Definition cleaned_patterns : list str :=
  [lit " ,"; lit " ."; lit " :"; lit ",."; lit ".."; lit ":,"; lit ";,";
   lit "  "].

(** The end of [finish_entry]: a period is appended to a text without
    terminal punctuation, and taken off after a bracket or a parenthesis. *)
Definition close_text (t : str) : str :=
  let t1 := if negb (ends_terminal t) then t ++ lit "." else t in
  if endswith (lit "].") t1 || endswith (lit ").") t1 then but_last t1
  else t1.

(** A text in which the punctuation pass finds nothing to rewrite: no blank
    at its beginning, none of the eight patterns, no "]." or ")." at its
    end. *)
Definition needs_no_cleaning (s : str) : Prop :=
  lstrip s = s /\
  (forall p, In p cleaned_patterns -> contains p s = false) /\
  endswith (lit "].") s = false /\ endswith (lit ").") s = false.

(** ** Sample items *)

Definition no_author : Author :=
  {| lastName := None; firstName := None; name := None |}.

Definition author (last first : str) : Author :=
  {| lastName := Some last; firstName := Some first; name := None |}.


(** [{"authors": a, "date": d}] *)
Definition authors_date_item (a : list Author) (d : str) : Item :=
  {| itemType := None; authors := a; title := None; subtitle := None;
     publicationTitle := None; journalPlace := None; volume := None;
     issue := None; pages := None; date := Some d; edition := None;
     place := None; publisher := None; series := None; seriesNumber := None;
     url := None; accessDate := None; doi := None; local_pdf_path := None |}.

(** [{"itemType": t, "title": s}] *)
Definition typed_title_item (t : option str) (s : str) : Item :=
  {| itemType := t; authors := []; title := Some s; subtitle := None;
     publicationTitle := None; journalPlace := None; volume := None;
     issue := None; pages := None; date := None; edition := None;
     place := None; publisher := None; series := None; seriesNumber := None;
     url := None; accessDate := None; doi := None; local_pdf_path := None |}.

(** "João", with its a-tilde (code point 227). *)
Definition joao : str := lit "Jo" ++ [227] ++ lit "o".

(** Scenario A: [{authors:[{firstName:"João",lastName:"Silva"}],
    date:"2020-03-01"}]. *)
Definition scenario_A : Item :=
  authors_date_item [author (lit "Silva") joao] (lit "2020-03-01").

(** Scenario D: a webpage without authors, titled "Guia Completo de Python
    para Análise de Dados" (a-acute is code point 225). *)
Definition scenario_D : Item :=
  typed_title_item (Some (lit "webpage"))
    (lit "Guia Completo de Python para An" ++ [225] ++ lit "lise de Dados").

(** Scenario F: two items of a first author SILVA, dated 2019 and 2020. *)
Definition silva_2019 : Item :=
  authors_date_item [author (lit "SILVA") (lit "Mariana")] (lit "2019").
Definition silva_2020 : Item :=
  authors_date_item [author (lit "SILVA") joao] (lit "2020").

(** An item of two authors, the first one an empty dictionary. *)
Definition second_author_only : Item :=
  authors_date_item [no_author; author (lit "Silva") []] (lit "2020").

(** A book of one author whose given names end with an initial. *)
Definition ana_book : Item :=
  {| itemType := Some (lit "book");
     authors := [author (lit "Silva") (lit "Ana P.")];
     title := Some (lit "Manual"); subtitle := None;
     publicationTitle := None; journalPlace := None; volume := None;
     issue := None; pages := None; date := Some (lit "2020");
     edition := None; place := Some (lit "Recife");
     publisher := Some (lit "Atlas"); series := None; seriesNumber := None;
     url := None; accessDate := None; doi := None; local_pdf_path := None |}.

(** An author given by a name that ends with a space, [{"name":
    "Maria Silva "}], and an item of that author alone. *)
Definition maria_silva_spaced : Author :=
  {| lastName := None; firstName := None; name := Some (lit "Maria Silva ") |}.

Definition spaced_name_item : Item :=
  authors_date_item [maria_silva_spaced] (lit "2020").

(** An article whose pages hold the digits of its year. *)
Definition pages_2020_article : Item :=
  {| itemType := Some (lit "journalArticle");
     authors := [author (lit "Costa") (lit "Ana")];
     title := Some (lit "Resumo"); subtitle := None;
     publicationTitle := Some (lit "Revista"); journalPlace := None;
     volume := Some (lit "2020"); issue := None;
     pages := Some (lit "2020-2031"); date := Some (lit "2020-06-15");
     edition := None; place := None; publisher := None; series := None;
     seriesNumber := None; url := None; accessDate := None; doi := None;
     local_pdf_path := None |}.

(** A title that ends in an ellipsis, and nothing else. *)
Definition ellipsis_item : Item := typed_title_item None (lit "E agora...").

(** A dated book of one author whose title ends in an ellipsis. *)
Definition ellipsis_book : Item :=
  {| itemType := Some (lit "book"); authors := [author (lit "Silva") joao];
     title := Some (lit "E agora..."); subtitle := None;
     publicationTitle := None; journalPlace := None; volume := None;
     issue := None; pages := None; date := Some (lit "2020");
     edition := None; place := Some (lit "Recife");
     publisher := Some (lit "Atlas"); series := None; seriesNumber := None;
     url := None; accessDate := None; doi := None; local_pdf_path := None |}.

(** ** Facts on the string operations *)

Lemma is_empty_true (s : str) : is_empty s = true <-> s = [].
Proof. destruct s; simpl; split; intro H; congruence. Qed.

Lemma is_empty_false (s : str) : is_empty s = false <-> s <> [].
Proof. destruct s; simpl; split; intro H; congruence. Qed.

Lemma startswith_app (p r : str) : startswith p (p ++ r) = true.
Proof.
  induction p as [|x p IH]; simpl; [reflexivity|].
  rewrite N.eqb_refl. exact IH.
Qed.

Lemma startswith_spec (p s : str) :
  startswith p s = true <-> exists r, s = p ++ r.
Proof.
  split.
  - revert s. induction p as [|x p IH]; intros s H.
    + exists s. reflexivity.
    + destruct s as [|y s]; simpl in H; [discriminate|].
      apply andb_true_iff in H. destruct H as [Hxy Hps].
      apply N.eqb_eq in Hxy. destruct (IH _ Hps) as [r ->].
      exists r. subst. reflexivity.
  - intros [r ->]. apply startswith_app.
Qed.

Lemma endswith_spec (p s : str) :
  endswith p s = true <-> exists r, s = r ++ p.
Proof.
  unfold endswith. rewrite startswith_spec. split.
  - intros [r H]. exists (rev r).
    rewrite <- (rev_involutive s), H, rev_app_distr, rev_involutive.
    reflexivity.
  - intros [r ->]. exists (rev r). apply rev_app_distr.
Qed.

Lemma contains_spec (x s : str) : contains x s = true <-> occurs_in x s.
Proof.
  unfold occurs_in. induction s as [|c s IH]; simpl.
  - rewrite orb_false_r, startswith_spec. split.
    + intros [r H]. exists [], r. exact H.
    + intros [a [b H]]. destruct a; [|discriminate]. exists b. exact H.
  - rewrite orb_true_iff, IH, startswith_spec. split.
    + intros [[r H]|[a [b H]]].
      * exists [], r. exact H.
      * exists (c :: a), b. simpl. rewrite H. reflexivity.
    + intros [a [b H]]. destruct a as [|c' a].
      * left. exists b. exact H.
      * right. simpl in H. injection H as _ H. exists a, b. exact H.
Qed.

Lemma join_last (sep : str) (l : list str) (x : str) :
  l <> [] -> join sep (l ++ [x]) = join sep l ++ sep ++ x.
Proof.
  induction l as [|y l IH]; intro Hl; [congruence|].
  destruct l as [|z l].
  - reflexivity.
  - change (join sep ((y :: z :: l) ++ [x]))
      with (y ++ sep ++ join sep ((z :: l) ++ [x])).
    rewrite IH by discriminate.
    change (join sep (y :: z :: l)) with (y ++ sep ++ join sep (z :: l)).
    rewrite <- !app_assoc. reflexivity.
Qed.

(** ** The author normaliser in citation mode *)

Lemma split_on_aux_not_nil (sep : char) (s cur : str) :
  split_on_aux sep cur s <> [].
Proof.
  revert cur. induction s as [|c s IH]; intro cur; simpl.
  - discriminate.
  - destruct (c =? sep); [discriminate | apply IH].
Qed.

Lemma author_names_surname (a : Author) : fst (author_names a) = surname a.
Proof.
  unfold author_names, surname, truthy.
  destruct (is_empty (get_or (lastName a) [])) eqn:Hl; simpl; [|reflexivity].
  destruct (is_empty (get_or (name a) [])) eqn:Hn; simpl.
  - apply is_empty_true. exact Hl.
  - unfold split_on, last_of.
    pose proof (split_on_aux_not_nil 32 (get_or (name a) []) []) as Hne.
    destruct (split_on_aux 32 [] (get_or (name a) [])) as [|p [|q l]];
      [congruence | reflexivity | reflexivity].
Qed.



(** C2 does not hold of the code.  The name "Maria Silva " has one
    resolvable surname, Silva, the last of its words; the normaliser cuts the
    name at single spaces, takes the empty piece after the last space for the
    surname and drops the author: it returns the empty string and the
    citation has no author, where the sort key of the same item, which cuts
    at whitespace, has SILVA.  With a second author the string has the
    one-author form, with two more the two-author form. *)
Theorem spaced_name_is_dropped (U : Unicode) :
  spec_surname maria_silva_spaced = lit "Silva" /\
  _format_authors_abnt U [maria_silva_spaced] true = [] /\
  format_in_text_citation U spaced_name_item None = lit "(2020)" /\
  fst (fst (sort_key U spaced_name_item)) = lit "SILVA" /\
  _format_authors_abnt U
    [author (lit "Costa") (lit "Ana"); maria_silva_spaced] true =
  lit "COSTA" /\
  _format_authors_abnt U
    [author (lit "Costa") (lit "Ana"); maria_silva_spaced;
     author (lit "Santos") (lit "Carlos")] true =
  lit "COSTA; SANTOS".
Proof. repeat split; vm_compute; reflexivity. Qed.

(** ** The in-text citation *)

Lemma get_year_some (U : Unicode) (d : option str) (y : str) :
  _get_year_from_date U d = Some y ->
  length y = 4%nat /\ forallb (isdigit_char U) y = true /\
  exists s, d = Some s /\ y = firstn 4 s.
Proof.
  unfold _get_year_from_date. destruct d as [s|]; [|discriminate].
  destruct (is_empty s); [discriminate|].
  destruct (4 <=? length s)%nat eqn:Hlen; cbv beta iota delta [andb];
    [|discriminate].
  destruct (isdigit U (firstn 4 s)) eqn:Hdig; [|discriminate].
  intro H. assert (Hy : y = firstn 4 s) by congruence. subst y. clear H.
  apply Nat.leb_le in Hlen. unfold isdigit in Hdig.
  apply andb_true_iff in Hdig. destruct Hdig as [_ Hdig].
  split; [|split].
  - rewrite length_firstn. lia.
  - exact Hdig.
  - exists s. split; reflexivity.
Qed.

Lemma get_year_truthy (U : Unicode) (d : option str) :
  truthy (_get_year_from_date U d) =
  match _get_year_from_date U d with Some _ => true | None => false end.
Proof.
  destruct (_get_year_from_date U d) as [y|] eqn:Hy; [|reflexivity].
  apply get_year_some in Hy. destruct Hy as [Hlen _].
  destruct y; [discriminate | reflexivity].
Qed.

Lemma year_or_default (U : Unicode) (d : option str) (default : str) :
  or_default (_get_year_from_date U d) default =
  match _get_year_from_date U d with Some y => y | None => default end.
Proof.
  unfold or_default. rewrite get_year_truthy.
  destruct (_get_year_from_date U d); reflexivity.
Qed.

Lemma format_in_text_citation_cases (U : Unicode) (item : Item)
    (page : option str) :
  let a := citation_author_str U item in
  let year := _get_year_from_date U (date item) in
  (a = [] /\ year = None /\
   format_in_text_citation U item page = lit "[s.n.]")
  \/
  ((a <> [] \/ year <> None) /\
   format_in_text_citation U item page =
   lit "(" ++ join (lit ", ") (citation_parts_of a year page) ++ lit ")").
Proof.
  intros a year. subst a year. unfold format_in_text_citation. cbv zeta.
  rewrite get_year_truthy, year_or_default.
  unfold citation_parts_of.
  destruct (citation_author_str U item) as [|c a'];
    destruct (_get_year_from_date U (date item)) as [y|]; simpl.
  - right. split; [right; discriminate|].
    destruct page as [[|c p]|]; reflexivity.
  - left. repeat split.
  - right. split; [left; discriminate|].
    destruct page as [[|c1 p]|]; reflexivity.
  - right. split; [left; discriminate|].
    destruct page as [[|c1 p]|]; reflexivity.
Qed.

(** C9. The in-text citation is the sentinel "[s.n.]", or it begins with
    an opening parenthesis and ends with a closing one. *)
Theorem in_text_citation_shape (U : Unicode) (item : Item)
    (page : option str) :
  format_in_text_citation U item page = lit "[s.n.]" \/
  exists body,
    format_in_text_citation U item page = lit "(" ++ body ++ lit ")".
Proof.
  destruct (format_in_text_citation_cases U item page)
    as [[_ [_ H]]|[_ H]].
  - left. exact H.
  - right. eexists. exact H.
Qed.










(** C7. When the sentinel case does not apply, the in-text citation is the
    author string (if it is not empty), the year (or "s.d." when none can be
    extracted) and "p. " with the page (if a non-empty page is given),
    joined by ", " between parentheses; scenario A gives
    "(SILVA, 2020, p. 15)". *)
Theorem in_text_citation_assembly (U : Unicode) :
  (forall item page,
     let a := citation_author_str U item in
     let year := _get_year_from_date U (date item) in
     a <> [] \/ year <> None ->
     format_in_text_citation U item page =
     lit "(" ++
     join (lit ", ")
       ((if is_empty a then [] else [a]) ++
        [match year with Some y => y | None => lit "s.d." end] ++
        match page with
        | Some (c :: p) => [lit "p. " ++ c :: p]
        | _ => []
        end) ++
     lit ")") /\
  format_in_text_citation U scenario_A (Some (lit "15")) =
  lit "(SILVA, 2020, p. 15)".
Proof.
  split.
  - intros item page a year Hor.
    destruct (format_in_text_citation_cases U item page)
      as [[Ha [Hy _]]|[_ H]].
    + destruct Hor as [Hn|Hn]; contradiction.
    + exact H.
  - vm_compute. reflexivity.
Qed.

(** The assembly on scenario A without a page and on an undated item. *)
Lemma in_text_citation_assembly_witness :
  format_in_text_citation latin1 scenario_A None = lit "(SILVA, 2020)" /\
  format_in_text_citation latin1
    (authors_date_item [author (lit "Costa") []; author (lit "Santos") []]
       (lit "sem data")) (Some (lit "7")) =
  lit "(COSTA; SANTOS, s.d., p. 7)".
Proof.
  split.
  - rewrite (proj1 (in_text_citation_assembly latin1) scenario_A None).
    + reflexivity.
    + left. discriminate.
  - rewrite (proj1 (in_text_citation_assembly latin1)).
    + reflexivity.
    + left. discriminate.
Defined.

(** The pseudo-author of scenario D is not the four-word string of the
    scenario and of the comment on the module's own example. *)
Lemma scenario_D_not_four_words :
  citation_author_str latin1 scenario_D <> lit "GUIA COMPLETO DE PYTHON...".
Proof. vm_compute. discriminate. Qed.

(** C8 does not hold of the code.  For a webpage without authors titled
    "Guia Completo de Python para Análise de Dados" the claim, and the comment
    on the module's own example of this title, have the pseudo-author
    "GUIA COMPLETO DE PYTHON..."; the code gives "GUIA COMPLETO DE...".  For
    every webpage with a title and no author string it keeps the first three
    words of the uppercased title, followed by an ellipsis when the title has
    more than three words. *)
Theorem scenario_D_pseudo_author (U : Unicode) :
  (forall item,
     _format_authors_abnt U (authors item) true = [] ->
     itemType item = Some (lit "webpage") -> truthy (title item) = true ->
     let title_words := split_ws (upper U (get_or (title item) [])) in
     citation_author_str U item =
     join (lit " ") (firstn 3 title_words) ++
     (if (3 <? length title_words)%nat then lit "..." else [])) /\
  citation_author_str U scenario_D = lit "GUIA COMPLETO DE..." /\
  format_in_text_citation U scenario_D None =
  lit "(GUIA COMPLETO DE..., s.d.)".
Proof.
  split; [|split; vm_compute; reflexivity].
  intros item Ha Htype Htitle title_words. subst title_words.
  unfold citation_author_str. cbv zeta.
  rewrite Ha, Htype, Htitle. cbn [is_empty field_is andb].
  change (str_eqb (lit "webpage") (lit "webpage")) with true. cbv iota.
  destruct (3 <? length (split_ws (upper U (get_or (title item) []))))%nat.
  - reflexivity.
  - rewrite app_nil_r. reflexivity.
Qed.

(** A webpage whose title has three words: no ellipsis. *)
Lemma scenario_D_pseudo_author_witness :
  citation_author_str latin1
    (typed_title_item (Some (lit "webpage")) (lit "Guia de  Python")) =
  lit "GUIA DE PYTHON".
Proof.
  rewrite (proj1 (scenario_D_pseudo_author latin1)); reflexivity.
Defined.

(** ** The year block of the bibliography entry *)

Lemma last_two_snoc2 {A : Type} (front : list A) (x y : A) :
  last_two (front ++ [x; y]) = [x; y].
Proof.
  unfold last_two. rewrite length_app. simpl.
  replace (length front + 2 - 2)%nat with (length front + 0)%nat by lia.
  rewrite skipn_app, Nat.add_0_r, skipn_all.
  replace (length front - length front)%nat with 0%nat by lia.
  reflexivity.
Qed.

Lemma endswith_comma_snoc (body : str) : endswith (lit ",") (body ++ lit ",") = true.
Proof. apply endswith_spec. exists body. reflexivity. Qed.

Lemma year_seen_spec (year : str) (parts : list str) :
  existsb (contains year) (last_two parts) = true <->
  exists p, In p (last_two parts) /\ occurs_in year p.
Proof.
  rewrite existsb_exists. split; intros [p [Hin Hp]]; exists p; split;
    try assumption; apply contains_spec; assumption.
Qed.

Lemma last_two_snoc {A : Type} (front : list A) (x : A) :
  last_two (front ++ [x]) = skipn (length front - 1) front ++ [x].
Proof.
  unfold last_two. rewrite length_app. simpl.
  replace (length front + 1 - 2)%nat with (length front - 1)%nat by lia.
  rewrite skipn_app.
  replace (length front - 1 - length front)%nat with 0%nat by lia.
  reflexivity.
Qed.

Lemma last_two_spec (p : str) (parts : list str) :
  In p (last_two parts) <-> one_of_last_two p parts.
Proof.
  unfold one_of_last_two. split.
  - destruct parts as [|x front] using rev_ind; [intros []|]. clear IHfront.
    rewrite last_two_snoc. intro Hin. apply in_app_or in Hin.
    destruct Hin as [Hin|[<-|[]]]; [|left; exists front; reflexivity].
    right. destruct front as [|w front'] using rev_ind; [destruct Hin|].
    clear IHfront'. rewrite length_app in Hin. simpl in Hin.
    replace (length front' + 1 - 1)%nat with (length front' + 0)%nat in Hin
      by lia.
    rewrite skipn_app, Nat.add_0_r, skipn_all in Hin.
    replace (length front' - length front')%nat with 0%nat in Hin by lia.
    destruct Hin as [<-|[]]. exists front', x.
    rewrite <- app_assoc. reflexivity.
  - intros [[front ->]|[front [q ->]]].
    + rewrite last_two_snoc. apply in_or_app. right. left. reflexivity.
    + rewrite last_two_snoc2. left. reflexivity.
Qed.

Lemma year_seen_last_two (year : str) (parts : list str) :
  existsb (contains year) (last_two parts) = true <->
  exists p, one_of_last_two p parts /\ occurs_in year p.
Proof.
  rewrite year_seen_spec. split; intros [p [Hin Hp]]; exists p;
    (split; [apply last_two_spec; exact Hin | exact Hp]).
Qed.

(** C6. The year block appends the year (the four digits extracted from
    the date, or "s.d."), closed by a period, as a part of its own unless
    the year occurs in the last part assembled before or in the one before
    it; an occurrence in an earlier part does not count.  When it occurs
    there and the last part ends with a comma, that comma becomes a period,
    and otherwise the parts are left as they are.  The entry is the closing
    pass on the parts this block returns: an article whose pages hold the
    digits of its year ends with the pages and a period, without the year. *)
Theorem year_block_rule (U : Unicode) (item : Item) :
  let year := entry_year U item in
  year = match _get_year_from_date U (date item) with
         | Some y => y
         | None => lit "s.d."
         end /\
  (forall parts,
     (forall p, one_of_last_two p parts -> ~ occurs_in year p) ->
     year_block U item parts = parts ++ [year ++ lit "."]) /\
  (forall front body,
     (exists p, one_of_last_two p (front ++ [body ++ lit ","]) /\
                occurs_in year p) ->
     year_block U item (front ++ [body ++ lit ","]) =
     front ++ [body ++ lit "."]) /\
  (forall parts,
     (exists p, one_of_last_two p parts /\ occurs_in year p) ->
     (forall front body, parts <> front ++ [body ++ lit ","]) ->
     year_block U item parts = parts) /\
  (forall include_download_link,
     format_bibliography_entry U item include_download_link =
     finish_entry
       (download_block item include_download_link
          (doi_block item
             (url_block item
                (series_block item
                   (year_block U item (parts_before_year U item))))))) /\
  year_block U silva_2020 [lit "Anais 2020."; lit "Resumo."; lit "v. 3,"] =
  [lit "Anais 2020."; lit "Resumo."; lit "v. 3,"; lit "2020."] /\
  format_bibliography_entry U pages_2020_article true =
  lit "COSTA, Ana. Resumo. **Revista** v. 2020, p. 2020-2031.".
Proof.
  intro year. subst year.
  split; [|split; [|split; [|split; [|split; [|split]]]]].
  - unfold entry_year. apply year_or_default.
  - intros parts Hno. unfold year_block. cbv zeta.
    destruct (existsb (contains (entry_year U item)) (last_two parts)) eqn:Hex.
    + apply year_seen_last_two in Hex. destruct Hex as [p [Hin Hp]].
      exfalso. exact (Hno p Hin Hp).
    + reflexivity.
  - intros front body Hseen. unfold year_block. cbv zeta.
    apply year_seen_last_two in Hseen. rewrite Hseen. simpl negb. cbv iota.
    unfold last_of, but_last. rewrite last_last, removelast_last.
    rewrite endswith_comma_snoc.
    change (lit ",") with [44]. rewrite removelast_last. reflexivity.
  - intros parts Hseen Hnot. unfold year_block. cbv zeta.
    pose proof Hseen as Hex. apply year_seen_last_two in Hex. rewrite Hex.
    simpl negb. cbv iota.
    destruct (endswith (lit ",") (last_of parts [])) eqn:Hend; [|reflexivity].
    exfalso. apply endswith_spec in Hend. destruct Hend as [body Hbody].
    assert (Hne : parts <> []).
    { intros ->. discriminate Hex. }
    apply (Hnot (removelast parts) body).
    rewrite <- Hbody. unfold last_of. apply app_removelast_last. exact Hne.
  - intro include_download_link. reflexivity.
  - vm_compute. reflexivity.
  - vm_compute. reflexivity.
Qed.

(** The cases of the year block on three parts: the year of the first part
    does not count; the year of the part before the last does, and turns the
    comma of the last part into a period or leaves the parts. *)
Lemma year_block_rule_witness :
  year_block latin1 silva_2020
    [lit "Atas de 2020."; lit "SILVA, J."; lit "Manual."] =
  [lit "Atas de 2020."; lit "SILVA, J."; lit "Manual."; lit "2020."] /\
  year_block latin1 silva_2020
    [lit "SILVA, J."; lit "v. 2020,"; lit "p. 1-9,"] =
  [lit "SILVA, J."; lit "v. 2020,"; lit "p. 1-9."] /\
  year_block latin1 silva_2020
    [lit "SILVA, J."; lit "Anais 2020."; lit "Resumo"] =
  [lit "SILVA, J."; lit "Anais 2020."; lit "Resumo"].
Proof.
  pose proof (year_block_rule latin1 silva_2020) as H. cbv zeta in H.
  destruct H as [_ [Happend [Hcomma [Hkeep _]]]].
  split; [|split].
  - rewrite Happend; [reflexivity|].
    intros p Hin Hocc. apply last_two_spec in Hin.
    apply contains_spec in Hocc.
    destruct Hin as [<-|[<-|[]]]; vm_compute in Hocc; discriminate.
  - apply (Hcomma [lit "SILVA, J."; lit "v. 2020,"] (lit "p. 1-9")).
    exists (lit "v. 2020,"). split.
    + right. exists [lit "SILVA, J."], (lit "p. 1-9" ++ lit ",").
      reflexivity.
    + apply contains_spec. reflexivity.
  - apply Hkeep.
    + exists (lit "Anais 2020."). split.
      * right. exists [lit "SILVA, J."], (lit "Resumo"). reflexivity.
      * apply contains_spec. reflexivity.
    + intros front body Heq.
      assert (Hlast : last [lit "SILVA, J."; lit "Anais 2020."; lit "Resumo"]
                        [] = body ++ lit ",").
      { rewrite Heq. apply last_last. }
      assert (Hend : endswith (lit ",") (lit "Resumo") = true).
      { apply endswith_spec. exists body. exact Hlast. }
      vm_compute in Hend. discriminate.
Defined.

(** ** The sort key *)

(** C10. The sort key looks at the first author alone: when the authors
    list is not empty and its first author has no lastName and no name (or
    empty ones), the entry point of the key is "[S.A.]", also for an item
    whose second author has a surname that leads its bibliography entry. *)
Theorem sort_key_first_author_only (U : Unicode) :
  (forall item a rest,
     authors item = a :: rest ->
     truthy (lastName a) = false -> truthy (name a) = false ->
     fst (fst (sort_key U item)) = lit "[S.A.]") /\
  (authors second_author_only = [no_author; author (lit "Silva") []] /\
   fst (fst (sort_key U second_author_only)) = lit "[S.A.]" /\
   hd [] (entry_parts U second_author_only true) = lit "SILVA." /\
   startswith (lit "SILVA.")
     (format_bibliography_entry U second_author_only true) = true).
Proof.
  split.
  - intros item a rest Hau Hlast Hname. unfold sort_key. rewrite Hau.
    cbv zeta. simpl fst.
    unfold truthy in Hlast. apply negb_false_iff, is_empty_true in Hlast.
    rewrite Hlast, Hname. reflexivity.
  - repeat split; vm_compute; reflexivity.
Qed.

(** The key of an item whose only author dictionary is empty. *)
Lemma sort_key_first_author_only_witness :
  fst (fst (sort_key latin1
              (authors_date_item [no_author; author (lit "Costa") joao]
                 (lit "2021")))) = lit "[S.A.]".
Proof.
  apply (proj1 (sort_key_first_author_only latin1) _ no_author
           [author (lit "Costa") joao]); reflexivity.
Defined.

(** ** The entry point of the bibliography entry *)

Lemma entry_parts_blocks (U : Unicode) (item : Item) (incl : bool) :
  entry_parts U item incl =
  later_blocks U item (snd (entry_point_block U item)) incl
    (title_block item (snd (entry_point_block U item))
       (fst (entry_point_block U item))).
Proof.
  unfold entry_parts, parts_before_year, later_blocks.
  destruct (entry_point_block U item) as [parts flag]. reflexivity.
Qed.

Lemma str_eqb_eq (a b : str) : str_eqb a b = true -> a = b.
Proof.
  revert b. induction a as [|x a IH]; intros [|y b] H; simpl in H;
    try discriminate; [reflexivity|].
  apply andb_true_iff in H. destruct H as [Hxy Hab].
  apply N.eqb_eq in Hxy. subst y. f_equal. apply IH. exact Hab.
Qed.

Lemma title_block_segment (item : Item) (parts : list str) :
  title_block item false parts = parts ++ [title_segment item].
Proof.
  unfold title_block, title_segment, truthy. simpl negb. cbv iota zeta.
  destruct (is_empty (get_or (subtitle item) [])); simpl negb; cbv iota;
    destruct (itemType item) as [t|]; simpl get_or; simpl field_is;
    try reflexivity;
    destruct (str_eqb t (lit "journalArticle")) eqn:Hj;
    destruct (str_eqb t (lit "book")) eqn:Hb; try reflexivity;
    apply str_eqb_eq in Hj; apply str_eqb_eq in Hb;
    rewrite Hj in Hb; discriminate Hb.
Qed.

Lemma keeps_lead_app (lead : str) (parts suffix : list str) :
  keeps_lead lead parts -> keeps_lead lead (parts ++ suffix).
Proof.
  intros [rest [-> H]]. exists (rest ++ suffix). split; [reflexivity|].
  destruct H as [Hne|He]; [left | right; exact He].
  intro Heq. apply app_eq_nil in Heq. destruct Heq as [Heq _]. auto.
Qed.

Lemma appends_keeps_lead (block : list str -> list str) (lead : str)
    (parts : list str) :
  appends block -> keeps_lead lead parts -> keeps_lead lead (block parts).
Proof.
  intros Hb Hk. destruct (Hb parts) as [suffix ->].
  apply keeps_lead_app. exact Hk.
Qed.

#[local] Ltac appender :=
  intro parts; cbv zeta;
  repeat match goal with
         | |- context [if ?b then _ else _] => destruct b
         end;
  rewrite <- ?app_assoc;
  first [ exists []; rewrite app_nil_r; reflexivity
        | eexists; reflexivity ].

Lemma journal_block_appends (item : Item) : appends (journal_block item).
Proof. unfold journal_block. appender. Qed.

Lemma edition_block_appends (U : Unicode) (item : Item) :
  appends (edition_block U item).
Proof. unfold edition_block. appender. Qed.

Lemma place_block_appends (item : Item) (flag : bool) :
  appends (place_block item flag).
Proof. unfold place_block. appender. Qed.

Lemma publisher_block_appends (item : Item) (flag : bool) :
  appends (publisher_block item flag).
Proof. unfold publisher_block. appender. Qed.

Lemma series_block_appends (item : Item) : appends (series_block item).
Proof. unfold series_block. appender. Qed.

Lemma url_block_appends (item : Item) : appends (url_block item).
Proof. unfold url_block. appender. Qed.

Lemma doi_block_appends (item : Item) : appends (doi_block item).
Proof. unfold doi_block. appender. Qed.

Lemma download_block_appends (item : Item) (incl : bool) :
  appends (download_block item incl).
Proof. unfold download_block. appender. Qed.

Lemma year_block_keeps_lead (U : Unicode) (item : Item) (lead : str)
    (parts : list str) :
  keeps_lead lead parts -> keeps_lead lead (year_block U item parts).
Proof.
  intro Hk. unfold year_block. cbv zeta.
  destruct (negb (existsb (contains (entry_year U item)) (last_two parts))).
  - apply keeps_lead_app. exact Hk.
  - destruct (endswith (lit ",") (last_of parts [])) eqn:Hend; [|exact Hk].
    destruct Hk as [rest [-> H]]. destruct rest as [|q rest].
    + destruct H as [Hne|He]; [congruence|].
      simpl in Hend. rewrite He in Hend. discriminate.
    + unfold but_last.
      change (removelast (lead :: q :: rest))
        with (lead :: removelast (q :: rest)).
      eexists. split; [reflexivity|]. left.
      intro Heq. apply app_eq_nil in Heq. destruct Heq as [_ Heq].
      discriminate.
Qed.

Lemma later_blocks_keep_lead (U : Unicode) (item : Item) (flag incl : bool)
    (lead : str) (parts : list str) :
  keeps_lead lead parts ->
  hd [] (later_blocks U item flag incl parts) = lead.
Proof.
  intro Hk. unfold later_blocks.
  assert (H : keeps_lead lead
    (download_block item incl
       (doi_block item
          (url_block item
             (series_block item
                (year_block U item
                   (publisher_block item flag
                      (place_block item flag
                         (edition_block U item
                            (journal_block item parts)))))))))).
  { apply appends_keeps_lead; [apply download_block_appends|].
    apply appends_keeps_lead; [apply doi_block_appends|].
    apply appends_keeps_lead; [apply url_block_appends|].
    apply appends_keeps_lead; [apply series_block_appends|].
    apply year_block_keeps_lead.
    apply appends_keeps_lead; [apply publisher_block_appends|].
    apply appends_keeps_lead; [apply place_block_appends|].
    apply appends_keeps_lead; [apply edition_block_appends|].
    apply appends_keeps_lead; [apply journal_block_appends|].
    exact Hk. }
  destruct H as [rest [-> _]]. reflexivity.
Qed.

Lemma endswith_comma_period (s : str) :
  endswith (lit ",") (s ++ lit ".") = false.
Proof.
  unfold endswith. change (lit ".") with [46]. rewrite rev_app_distr.
  reflexivity.
Qed.

(** The first assembled part of the bibliography entry is chosen in this
    order: the author string when it is not empty; else the uppercased
    publisher and a period when there is a publisher and the authors list is
    empty; else the uppercased title and a period when there is a title,
    whatever the item type, and then no title segment follows it; else
    "[S.A.]".  In the three other cases the title segment is the second
    part. *)
Theorem entry_point_priority (U : Unicode) (item : Item)
    (include_download_link : bool) :
  let a := _format_authors_abnt U (authors item) false in
  let corporate :=
    truthy (publisher item) &&
    match authors item with [] => true | _ :: _ => false end in
  let by_title := is_empty a && negb corporate && truthy (title item) in
  let lead :=
    if negb (is_empty a) then a
    else if corporate then upper U (get_or (publisher item) []) ++ lit "."
    else if truthy (title item)
    then upper U (get_or (title item) []) ++ lit "."
    else lit "[S.A.]" in
  hd [] (entry_parts U item include_download_link) = lead /\
  entry_parts U item include_download_link =
  later_blocks U item by_title include_download_link
    (if by_title then [lead] else [lead; title_segment item]).
Proof.
  intros a corporate by_title lead.
  assert (Hep : entry_point_block U item = ([lead], by_title)).
  { unfold entry_point_block. fold a.
    replace (length (authors item) =? 0)%nat
      with (match authors item with [] => true | _ :: _ => false end)
      by (destruct (authors item); reflexivity).
    fold corporate. subst lead by_title.
    destruct (is_empty a); simpl; [|reflexivity].
    destruct corporate; simpl; [reflexivity|].
    destruct (truthy (title item)); simpl;
      [destruct (field_is (itemType item) (lit "webpage"))|];
      rewrite ?andb_false_r; reflexivity. }
  assert (Hparts : entry_parts U item include_download_link =
    later_blocks U item by_title include_download_link
      (if by_title then [lead] else [lead; title_segment item])).
  { rewrite entry_parts_blocks, Hep. simpl fst. simpl snd.
    destruct by_title; [reflexivity|].
    rewrite title_block_segment. reflexivity. }
  split; [|exact Hparts].
  rewrite Hparts. apply later_blocks_keep_lead.
  destruct by_title eqn:Hbt.
  - exists []. split; [reflexivity|]. right.
    subst by_title lead.
    apply andb_true_iff in Hbt. destruct Hbt as [Hbt Ht].
    apply andb_true_iff in Hbt. destruct Hbt as [Ha Hc].
    rewrite Ha, Ht. apply negb_true_iff in Hc. rewrite Hc.
    simpl. apply endswith_comma_period.
  - exists [title_segment item]. split; [reflexivity|]. left. discriminate.
Qed.

(** ** The order of the bibliography *)

Lemma str_compare_spec (a b : str) :
  CompareSpec (a = b) (lex_lt a b) (lex_lt b a) (str_compare a b).
Proof.
  revert b. induction a as [|x a IH]; intros [|y b]; simpl.
  - constructor. reflexivity.
  - constructor. constructor.
  - constructor. constructor.
  - destruct (N.compare_spec x y) as [Hxy|Hxy|Hxy].
    + subst y. destruct (IH b) as [Hab|Hab|Hab]; constructor.
      * subst. reflexivity.
      * apply lex_lt_tail. exact Hab.
      * apply lex_lt_tail. exact Hab.
    + constructor. apply lex_lt_head. exact Hxy.
    + constructor. apply lex_lt_head. exact Hxy.
Qed.

Lemma lex_lt_trans (a b c : str) : lex_lt a b -> lex_lt b c -> lex_lt a c.
Proof.
  intro Hab. revert c. induction Hab as [x b|x y a b Hxy|x a b Hab IH];
    intros c Hbc; inversion Hbc; subst.
  - constructor.
  - constructor.
  - apply lex_lt_head. lia.
  - apply lex_lt_head. exact Hxy.
  - apply lex_lt_head. assumption.
  - apply lex_lt_tail. apply IH. assumption.
Qed.

Lemma lex_le_trans (a b c : str) : lex_le a b -> lex_le b c -> lex_le a c.
Proof.
  intros [Hab | ->] [Hbc | ->].
  - left. exact (lex_lt_trans _ _ _ Hab Hbc).
  - left. exact Hab.
  - left. exact Hbc.
  - right. reflexivity.
Qed.

Lemma key_le_trans (k1 k2 k3 : str * str * str) :
  key_le k1 k2 -> key_le k2 k3 -> key_le k1 k3.
Proof.
  destruct k1 as [[e1 y1] t1], k2 as [[e2 y2] t2], k3 as [[e3 y3] t3].
  simpl. intros [He|[-> Hy]] [He'|[-> Hy']].
  - left. exact (lex_lt_trans _ _ _ He He').
  - left. exact He.
  - left. exact He'.
  - right. split; [reflexivity|].
    destruct Hy as [Hy|[-> Ht]], Hy' as [Hy'|[-> Ht']].
    + left. exact (lex_lt_trans _ _ _ Hy Hy').
    + left. exact Hy.
    + left. exact Hy'.
    + right. split; [reflexivity|]. exact (lex_le_trans _ _ _ Ht Ht').
Qed.

(** What the comparison of the code decides, in terms of the order. *)
Lemma key_lt_true (k1 k2 : str * str * str) :
  key_lt k1 k2 = true -> key_le k1 k2.
Proof.
  destruct k1 as [[e1 y1] t1], k2 as [[e2 y2] t2].
  unfold key_lt, key_compare, key_le.
  destruct (str_compare_spec e1 e2) as [He|He|He]; try discriminate.
  - destruct (str_compare_spec y1 y2) as [Hy|Hy|Hy]; try discriminate.
    + destruct (str_compare_spec t1 t2) as [Ht|Ht|Ht]; try discriminate.
      intros _. right. split; [exact He|]. right. split; [exact Hy|].
      left. exact Ht.
    + intros _. right. split; [exact He|]. left. exact Hy.
  - intros _. left. exact He.
Qed.

Lemma key_lt_false (k1 k2 : str * str * str) :
  key_lt k1 k2 = false -> key_le k2 k1.
Proof.
  destruct k1 as [[e1 y1] t1], k2 as [[e2 y2] t2].
  unfold key_lt, key_compare, key_le.
  destruct (str_compare_spec e1 e2) as [He|He|He]; try discriminate.
  - destruct (str_compare_spec y1 y2) as [Hy|Hy|Hy]; try discriminate.
    + destruct (str_compare_spec t1 t2) as [Ht|Ht|Ht]; try discriminate;
        intros _; right; (split; [symmetry; exact He|]); right;
        (split; [symmetry; exact Hy|]).
      * right. symmetry. exact Ht.
      * left. exact Ht.
    + intros _. right. split; [symmetry; exact He|]. left. exact Hy.
  - intros _. left. exact He.
Qed.

Lemma str_compare_eq (a b : str) : str_compare a b = Eq -> a = b.
Proof.
  intro H. destruct (str_compare_spec a b) as [Hab|Hab|Hab];
    [exact Hab | discriminate | discriminate].
Qed.

Lemma str_compare_refl (a : str) : str_compare a a = Eq.
Proof.
  induction a as [|x a IH]; simpl; [reflexivity|].
  rewrite N.compare_refl. exact IH.
Qed.

Lemma key_compare_eq (k1 k2 : str * str * str) :
  key_compare k1 k2 = Eq -> k1 = k2.
Proof.
  destruct k1 as [[e1 y1] t1], k2 as [[e2 y2] t2]. unfold key_compare.
  destruct (str_compare e1 e2) eqn:He; try discriminate.
  destruct (str_compare y1 y2) eqn:Hy; try discriminate.
  intro Ht. apply str_compare_eq in He, Hy, Ht. subst. reflexivity.
Qed.

Lemma key_compare_refl (k : str * str * str) : key_compare k k = Eq.
Proof.
  destruct k as [[e y] t]. unfold key_compare.
  rewrite !str_compare_refl. reflexivity.
Qed.

Section SortedFacts.

Variable A : Type.
Variable key : A -> str * str * str.

Let le (x y : A) : Prop := key_le (key x) (key y).

Lemma insert_sorted_perm (x : A) (l : list A) :
  Permutation (x :: l) (insert_sorted key x l).
Proof.
  induction l as [|y l IH]; simpl.
  - apply Permutation_refl.
  - destruct (key_lt (key y) (key x)).
    + apply perm_trans with (y :: x :: l); [apply perm_swap|].
      apply perm_skip. exact IH.
    + apply Permutation_refl.
Qed.

Lemma sorted_perm (l : list A) : Permutation l (sorted key l).
Proof.
  induction l as [|x l IH]; simpl.
  - apply perm_nil.
  - apply perm_trans with (x :: sorted key l).
    + apply perm_skip. exact IH.
    + apply insert_sorted_perm.
Qed.

Lemma insert_sorted_ordered (x : A) (l : list A) :
  StronglySorted le l -> StronglySorted le (insert_sorted key x l).
Proof.
  induction l as [|y l IH]; intro Hs; simpl.
  - constructor; constructor.
  - inversion Hs as [|y' l' Hl Hall]; subst.
    destruct (key_lt (key y) (key x)) eqn:Hlt.
    + constructor; [apply IH; exact Hl|].
      apply Forall_forall. intros z Hz.
      apply (Permutation_in z (Permutation_sym (insert_sorted_perm x l)))
        in Hz.
      destruct Hz as [<-|Hz].
      * apply key_lt_true. exact Hlt.
      * exact (proj1 (Forall_forall _ _) Hall z Hz).
    + apply key_lt_false in Hlt.
      constructor; [exact Hs|]. constructor; [exact Hlt|].
      apply Forall_forall. intros z Hz.
      apply (key_le_trans _ (key y)); [exact Hlt|].
      exact (proj1 (Forall_forall _ _) Hall z Hz).
Qed.

(** The sort is stable: the items of one key keep the order they came in. *)
Lemma insert_sorted_stable (k : str * str * str) (x : A) (l : list A) :
  filter (same_key key k) (insert_sorted key x l) =
  filter (same_key key k) (x :: l).
Proof.
  induction l as [|y l IH]; [reflexivity|].
  cbn [insert_sorted].
  destruct (key_lt (key y) (key x)) eqn:Hlt; [|reflexivity].
  cbn [filter] in *. rewrite IH.
  destruct (same_key key k x) eqn:Hx; [|reflexivity].
  destruct (same_key key k y) eqn:Hy; [|reflexivity].
  exfalso. unfold same_key in Hx, Hy.
  destruct (key_compare (key x) k) eqn:Hxk; try discriminate.
  destruct (key_compare (key y) k) eqn:Hyk; try discriminate.
  apply key_compare_eq in Hxk, Hyk. unfold key_lt in Hlt.
  rewrite Hxk, Hyk, key_compare_refl in Hlt. discriminate.
Qed.

Lemma sorted_stable (k : str * str * str) (l : list A) :
  filter (same_key key k) (sorted key l) = filter (same_key key k) l.
Proof.
  induction l as [|x l IH]; [reflexivity|].
  cbn [sorted]. rewrite insert_sorted_stable. cbn [filter].
  rewrite IH. reflexivity.
Qed.

Lemma sorted_ordered (l : list A) : StronglySorted le (sorted key l).
Proof.
  induction l as [|x l IH]; simpl.
  - constructor.
  - apply insert_sorted_ordered. exact IH.
Qed.

End SortedFacts.


Lemma isdigit_char_ge (U : Unicode) (c : char) :
  isdigit_char U c = true -> 48 <= c.
Proof.
  unfold isdigit_char, ascii_digit.
  destruct (c <? 128) eqn:Hc.
  - intro H. apply andb_true_iff in H. destruct H as [H _].
    apply N.leb_le. exact H.
  - intros _. apply N.ltb_ge in Hc. lia.
Qed.







(** ** The punctuation pass *)

(** [replace] passes over the text once: of three periods, two remain. *)
Lemma replace_three_periods :
  replace (lit "..") (lit ".") (lit "...") = lit "..".
Proof. reflexivity. Qed.

(** C5 does not hold of the code.  For a title that ends in an ellipsis the
    entry keeps two consecutive periods, with or without the download link:
    the pass replaces ".." once, from left to right, so the four periods of
    the title part become two, and the three of a title in the middle of an
    entry become two as well. *)
Theorem ellipsis_entry_keeps_two_periods (U : Unicode) (incl : bool) :
  format_bibliography_entry U ellipsis_item incl = lit "E AGORA.. s.d." /\
  contains (lit "..") (format_bibliography_entry U ellipsis_item incl)
  = true /\
  format_bibliography_entry U ellipsis_book incl =
  lit "SILVA, Jo" ++ [227] ++ lit "o. **E agora..**. Recife: Atlas, 2020." /\
  contains (lit "..") (format_bibliography_entry U ellipsis_book incl)
  = true.
Proof. destruct incl; repeat split; vm_compute; reflexivity. Qed.

(** ** The author normaliser in bibliography mode *)

Lemma join_cons (sep x : str) (l : list str) :
  l <> [] -> join sep (x :: l) = x ++ sep ++ join sep l.
Proof. destruct l; [congruence | reflexivity]. Qed.

Lemma join_endswith (sep p : str) (l : list str) :
  l <> [] -> Forall (fun x => endswith p x = true) l ->
  endswith p (join sep l) = true.
Proof.
  induction l as [|x l IH]; intros Hne Hall; [congruence|].
  inversion Hall as [|x' l' Hx Hl]; subst.
  destruct l as [|y l]; [exact Hx|].
  rewrite join_cons by discriminate.
  apply endswith_spec.
  destruct (proj1 (endswith_spec _ _) (IH ltac:(discriminate) Hl)) as [r Hr].
  exists (x ++ sep ++ r). rewrite Hr, <- !app_assoc. reflexivity.
Qed.

(** One turn of the loop appends what it appends to the empty list. *)
Lemma format_author_step_acc (U : Unicode) (fc : bool) (acc : list str)
    (a : Author) :
  format_author_step U fc acc a = acc ++ format_author_step U fc [] a.
Proof.
  unfold format_author_step.
  destruct (author_names a) as [last_name first_name].
  repeat match goal with
         | |- context [if ?b then _ else _] => destruct b
         end; try reflexivity.
  rewrite app_nil_r. reflexivity.
Qed.

Lemma format_authors_loop (U : Unicode) (fc : bool) (l : list Author)
    (acc : list str) :
  fold_left (format_author_step U fc) l acc =
  acc ++ flat_map (format_author_step U fc []) l.
Proof.
  revert acc. induction l as [|a l IH]; intro acc; simpl.
  - rewrite app_nil_r. reflexivity.
  - rewrite IH, format_author_step_acc, <- app_assoc. reflexivity.
Qed.

(** The function on the list the loop leaves. *)
Lemma format_authors_of_loop (U : Unicode) (fc : bool) (l : list Author) :
  _format_authors_abnt U l fc =
  let formatted := flat_map (format_author_step U fc []) l in
  if fc then
    match formatted with
    | [] => []
    | [s1] => s1
    | [s1; s2] => s1 ++ lit "; " ++ s2
    | s1 :: _ :: _ :: _ => s1 ++ lit " et al."
    end
  else join (lit "; ") formatted.
Proof.
  unfold _format_authors_abnt. destruct l as [|a l].
  - destruct fc; reflexivity.
  - change (length (a :: l) =? 0)%nat with false. cbv iota zeta.
    rewrite format_authors_loop, app_nil_l.
    destruct (flat_map (format_author_step U fc []) (a :: l))
      as [|s1 [|s2 [|s3 r]]]; destruct fc; reflexivity.
Qed.

(** What one author contributes in bibliography mode. *)
Lemma bibliography_step (U : Unicode) (a : Author) :
  (surname a = [] /\ format_author_step U false [] a = []) \/
  (surname a <> [] /\
   exists body, format_author_step U false [] a = [body ++ lit "."]).
Proof.
  unfold format_author_step. rewrite <- author_names_surname.
  destruct (author_names a) as [last_name first_name]. simpl fst.
  destruct last_name as [|c last_name]; [left; split; reflexivity|].
  right. split; [discriminate|]. cbn [is_empty negb app].
  repeat match goal with
         | |- context [if ?b then _ else _] => destruct b
         end; eexists; rewrite ?app_assoc; reflexivity.
Qed.

Lemma bibliography_loop_periods (U : Unicode) (l : list Author) :
  Forall (fun x => endswith (lit ".") x = true)
    (flat_map (format_author_step U false []) l).
Proof.
  induction l as [|a l IH]; simpl; [constructor|].
  apply Forall_app. split; [|exact IH].
  destruct (bibliography_step U a) as [[_ ->]|[_ [body ->]]].
  - constructor.
  - constructor; [|constructor]. apply endswith_spec. exists body. reflexivity.
Qed.

Lemma bibliography_loop_nil (U : Unicode) (l : list Author) :
  flat_map (format_author_step U false []) l = [] <->
  Forall (fun a => surname a = []) l.
Proof.
  induction l as [|a l IH]; simpl.
  - split; [constructor | reflexivity].
  - split.
    + intro H. apply app_eq_nil in H. destruct H as [Ha Hl].
      constructor; [|apply IH; exact Hl].
      destruct (bibliography_step U a) as [[Hs _]|[_ [body Hb]]];
        [exact Hs | rewrite Hb in Ha; discriminate].
    + intro H. inversion H as [|a' l' Ha Hl]; subst.
      destruct (bibliography_step U a) as [[_ ->]|[Hne _]];
        [apply IH; exact Hl | contradiction].
Qed.

Lemma join_nil_inv (sep : str) (l : list str) :
  Forall (fun x => x <> []) l -> join sep l = [] -> l = [].
Proof.
  intros Hall H. destruct l as [|x l]; [reflexivity|].
  inversion Hall as [|x' l' Hx _]; subst. exfalso.
  destruct l; simpl in H; [exact (Hx H)|].
  apply app_eq_nil in H. destruct H as [H _]. exact (Hx H).
Qed.

(** X1. In bibliography mode the author string is empty exactly when no
    author of the list has a resolvable surname (the caller then falls back
    to another entry point); when it is not empty it ends with a period. *)
Theorem bibliography_authors_empty_iff (U : Unicode) (l : list Author) :
  (_format_authors_abnt U l false = [] <->
   Forall (fun a => surname a = []) l) /\
  (_format_authors_abnt U l false <> [] ->
   endswith (lit ".") (_format_authors_abnt U l false) = true).
Proof.
  rewrite format_authors_of_loop. cbv zeta iota.
  pose proof (bibliography_loop_periods U l) as Hper.
  split.
  - rewrite <- bibliography_loop_nil. split.
    + apply join_nil_inv.
      apply Forall_impl with (2 := Hper). intros x Hx ->. discriminate.
    + intros ->. reflexivity.
  - intro Hne. apply join_endswith; [|exact Hper].
    intros Hnil. rewrite Hnil in Hne. apply Hne. reflexivity.
Qed.

(** The author string of two authors, of which the first has no surname. *)
Lemma bibliography_authors_empty_iff_witness :
  _format_authors_abnt latin1 [no_author] false = [] /\
  endswith (lit ".")
    (_format_authors_abnt latin1 [no_author; author (lit "Silva") joao] false)
  = true.
Proof.
  split.
  - apply (proj1 (bibliography_authors_empty_iff latin1 [no_author])).
    constructor; [reflexivity | constructor].
  - apply (proj2 (bibliography_authors_empty_iff latin1
                    [no_author; author (lit "Silva") joao])).
    vm_compute. discriminate.
Defined.

(** Replacing a one-character string by nothing removes that character. *)
Lemma replace_char_by_nothing (d : char) (s : str) :
  replace [d] [] s = filter (fun c => negb (d =? c)) s.
Proof.
  unfold replace. induction s as [|c s IH]; [reflexivity|].
  cbn [replace_aux startswith length Nat.sub filter].
  rewrite andb_true_r. destruct (d =? c); simpl; rewrite IH; reflexivity.
Qed.

Lemma format_authors_same_steps (U : Unicode) (fc : bool)
    (before after : list Author) (a b : Author) :
  format_author_step U fc [] a = format_author_step U fc [] b ->
  _format_authors_abnt U (before ++ a :: after) fc =
  _format_authors_abnt U (before ++ b :: after) fc.
Proof.
  intro H. rewrite !format_authors_of_loop. cbv zeta.
  rewrite !flat_map_app. cbn [flat_map]. rewrite H. reflexivity.
Qed.

(** X2. A given name that is one letter and the same letter followed by a
    period give the same author string, in both modes and wherever the
    author stands in the list: "J" and "J." are both rendered "J.". *)
Theorem initial_period_is_optional (U : Unicode) (c : char)
    (ln nm : option str) (before after : list Author) (fc : bool) :
  _format_authors_abnt U
    (before ++
     {| lastName := ln; firstName := Some [c]; name := nm |} :: after) fc =
  _format_authors_abnt U
    (before ++
     {| lastName := ln; firstName := Some [c; 46]; name := nm |} :: after) fc.
Proof.
  apply format_authors_same_steps.
  unfold format_author_step, author_names. cbn [lastName firstName name get_or].
  destruct (is_empty (get_or ln []) && negb (is_empty (get_or nm [])));
    [reflexivity|].
  destruct (is_empty (get_or ln [])); [reflexivity|].
  destruct fc; [reflexivity|].
  cbn [is_empty negb length Nat.eqb orb andb].
  change (endswith (lit ".") [c; 46]) with ((46 =? 46) && true).
  cbn [N.eqb Pos.eqb andb]. cbv iota.
  do 3 f_equal. change (lit ".") with [46].
  rewrite !replace_char_by_nothing. unfold upper. cbn [flat_map].
  rewrite !filter_app. reflexivity.
Qed.

(** ** The split of a full name *)

Lemma split_on_aux_app (sep : char) (g l cur : str) :
  split_on_aux sep cur (g ++ sep :: l) =
  split_on_aux sep cur g ++ split_on_aux sep [] l.
Proof.
  revert cur. induction g as [|c g IH]; intro cur; simpl.
  - rewrite N.eqb_refl. reflexivity.
  - destruct (c =? sep); [simpl; f_equal|]; apply IH.
Qed.

Lemma split_on_aux_no_sep (sep : char) (l cur : str) :
  ~ In sep l -> split_on_aux sep cur l = [cur ++ l].
Proof.
  revert cur. induction l as [|c l IH]; intros cur Hno; simpl.
  - rewrite app_nil_r. reflexivity.
  - destruct (c =? sep) eqn:Hc.
    + apply N.eqb_eq in Hc. exfalso. apply Hno. left. exact Hc.
    + rewrite IH by (intro Hin; apply Hno; right; exact Hin).
      rewrite <- app_assoc. reflexivity.
Qed.

(** Joining the pieces of a split by the separator gives the string back. *)
Lemma join_split_on_aux (sep : char) (s cur : str) :
  join [sep] (split_on_aux sep cur s) = cur ++ s.
Proof.
  revert cur. induction s as [|c s IH]; intro cur; simpl split_on_aux.
  - simpl. rewrite app_nil_r. reflexivity.
  - destruct (c =? sep) eqn:Hc.
    + apply N.eqb_eq in Hc. subst c.
      rewrite join_cons by apply split_on_aux_not_nil.
      rewrite IH. reflexivity.
    + rewrite IH, <- app_assoc. reflexivity.
Qed.

Lemma author_names_of_full_name (fn : option str) (given last : str) :
  last <> [] -> ~ In 32 last ->
  author_names
    {| lastName := None; firstName := fn;
       name := Some (given ++ [32] ++ last) |} = (last, given).
Proof.
  intros Hne Hno. unfold author_names.
  cbn [lastName firstName name get_or is_empty andb].
  assert (Hfull : is_empty (given ++ [32] ++ last) = false)
    by (destruct given; reflexivity).
  rewrite Hfull. cbn [negb]. cbv iota zeta.
  unfold split_on. cbn [app]. rewrite split_on_aux_app.
  rewrite (split_on_aux_no_sep 32 last []) by exact Hno. cbn [app].
  pose proof (split_on_aux_not_nil 32 given []) as Hpieces.
  match goal with
  | |- (if ?b then _ else _) = _ => destruct b eqn:Hlen
  end.
  - unfold last_of, but_last. rewrite last_last, removelast_last.
    change (lit " ") with [32]. rewrite join_split_on_aux. reflexivity.
  - exfalso. apply Nat.ltb_ge in Hlen. rewrite length_app in Hlen.
    simpl in Hlen. destruct (split_on_aux 32 [] given);
      [congruence | simpl in Hlen; lia].
Qed.

(** X3. An author given by [name] alone, made of given names, a space and
    a last word without space, is rendered as the author whose [lastName] is
    that last word and whose [firstName] is what precedes the space; a
    [firstName] beside [name] is ignored. *)
Theorem full_name_is_split_at_last_space (U : Unicode) (fn : option str)
    (given last : str) (before after : list Author) (fc : bool) :
  last <> [] -> ~ In 32 last ->
  _format_authors_abnt U
    (before ++
     {| lastName := None; firstName := fn;
        name := Some (given ++ [32] ++ last) |} :: after) fc =
  _format_authors_abnt U
    (before ++
     {| lastName := Some last; firstName := Some given; name := None |}
     :: after) fc.
Proof.
  intros Hne Hno. apply format_authors_same_steps.
  unfold format_author_step.
  rewrite (author_names_of_full_name fn given last Hne Hno).
  unfold author_names. cbn [lastName firstName name get_or].
  destruct last as [|c last]; [congruence|]. reflexivity.
Qed.

(** "Instituto Brasileiro de Geografia" as a name: the institute is filed
    under its last word. *)
Lemma full_name_is_split_at_last_space_witness :
  _format_authors_abnt latin1
    [{| lastName := None; firstName := None;
        name := Some (lit "Instituto Brasileiro de" ++ [32]
                      ++ lit "Geografia") |}] false =
  lit "GEOGRAFIA, Instituto Brasileiro de.".
Proof.
  refine (eq_trans
            (full_name_is_split_at_last_space latin1 None
               (lit "Instituto Brasileiro de") (lit "Geografia") [] [] false
               _ _) _).
  - discriminate.
  - vm_compute. intuition discriminate.
  - reflexivity.
Defined.

(** ** The year of a date *)

Lemma get_year_of_digits (U : Unicode) (s : str) :
  (4 <= length s)%nat -> forallb (isdigit_char U) (firstn 4 s) = true ->
  _get_year_from_date U (Some s) = Some (firstn 4 s).
Proof.
  intros Hlen Hdig. unfold _get_year_from_date, isdigit.
  destruct s as [|c1 [|c2 [|c3 [|c4 s]]]]; simpl in Hlen; try lia.
  cbn [is_empty]. replace (4 <=? length (c1 :: c2 :: c3 :: c4 :: s))%nat
    with true by (symmetry; apply Nat.leb_le; simpl; lia).
  rewrite Hdig. reflexivity.
Qed.

(** X4. The year extractor returns the first four characters of the date
    when there are four and all are digits, and nothing in every other case
    (no date, a shorter one, a non-digit among the four); the year it returns
    is a date of which it returns the same year. *)
Theorem year_is_the_digit_prefix (U : Unicode) (d : option str) (y : str) :
  (_get_year_from_date U d = Some y <->
   exists s,
     d = Some s /\ (4 <= length s)%nat /\ y = firstn 4 s /\
     forallb (isdigit_char U) y = true) /\
  (_get_year_from_date U d = Some y ->
   _get_year_from_date U (Some y) = Some y).
Proof.
  assert (Hchar : _get_year_from_date U d = Some y ->
    exists s,
      d = Some s /\ (4 <= length s)%nat /\ y = firstn 4 s /\
      forallb (isdigit_char U) y = true).
  { intro H. destruct (get_year_some U d y H) as [Hlen [Hdig [s [Hd Hy]]]].
    exists s. repeat split; try assumption.
    rewrite Hy, length_firstn in Hlen. lia. }
  split; [split; [exact Hchar|]|].
  - intros [s [-> [Hlen [-> Hdig]]]]. apply get_year_of_digits; assumption.
  - intro H. destruct (get_year_some U d y H) as [Hlen [Hdig _]].
    assert (Hy : firstn 4 y = y) by (apply firstn_all2; lia).
    rewrite <- Hy at 2. apply get_year_of_digits; [lia|].
    rewrite Hy. exact Hdig.
Qed.

(** An ISO date, and a date whose fourth character is no digit. *)
Lemma year_is_the_digit_prefix_witness :
  _get_year_from_date latin1 (Some (lit "2020-03-01")) = Some (lit "2020") /\
  _get_year_from_date latin1 (Some (lit "2020")) = Some (lit "2020") /\
  _get_year_from_date latin1 (Some (lit "202x-03-01")) = None.
Proof.
  assert (H : _get_year_from_date latin1 (Some (lit "2020-03-01")) =
              Some (lit "2020")).
  { apply (proj1 (year_is_the_digit_prefix latin1 _ _)).
    exists (lit "2020-03-01"). repeat split. simpl. lia. }
  split; [exact H|]. split.
  - exact (proj2 (year_is_the_digit_prefix latin1 _ _) H).
  - reflexivity.
Defined.

(** ** The end of the bibliography entry *)

Lemma endswith_char_snoc (d c : char) (r : str) :
  endswith [d] (r ++ [c]) = (d =? c).
Proof.
  unfold endswith. rewrite rev_app_distr. simpl. apply andb_true_r.
Qed.

Lemma ends_terminal_snoc (r : str) (c : char) :
  ends_terminal (r ++ [c]) = terminal c.
Proof.
  unfold ends_terminal, terminal.
  change (lit ".") with [46]. change (lit "]") with [93].
  change (lit ")") with [41]. change (lit "?") with [63].
  change (lit "!") with [33].
  rewrite !endswith_char_snoc. reflexivity.
Qed.

Lemma ends_terminal_inv (s : str) :
  ends_terminal s = true -> exists r c, s = r ++ [c] /\ terminal c = true.
Proof.
  intro H. destruct (exists_last (l := s)) as [r [c Hs]].
  - intros ->. discriminate H.
  - exists r, c. split; [exact Hs|]. rewrite Hs, ends_terminal_snoc in H.
    exact H.
Qed.

Lemma terminal_not_space (c : char) : terminal c = true -> isspace c = false.
Proof.
  unfold terminal. rewrite !orb_true_iff, !N.eqb_eq.
  intros [[[[<-|<-]|<-]|<-]|<-]; reflexivity.
Qed.

Lemma lstrip_snoc (r : str) (c : char) :
  isspace c = false ->
  exists pre r', r = pre ++ r' /\ lstrip (r ++ [c]) = r' ++ [c].
Proof.
  intro Hc. induction r as [|a r IH]; simpl.
  - exists [], []. rewrite Hc. split; reflexivity.
  - destruct (isspace a).
    + destruct IH as [pre [r' [-> H]]]. exists (a :: pre), r'.
      split; [reflexivity | exact H].
    + exists [], (a :: r). split; reflexivity.
Qed.

(** [strip] keeps a last character that is no blank, and removes only from
    the front. *)
Lemma strip_snoc (r : str) (c : char) :
  isspace c = false ->
  exists pre r', r = pre ++ r' /\ strip (r ++ [c]) = r' ++ [c].
Proof.
  intro Hc. destruct (lstrip_snoc r c Hc) as [pre [r' [Hr Hl]]].
  exists pre, r'. split; [exact Hr|].
  unfold strip. rewrite Hl, rev_app_distr. simpl. rewrite Hc.
  simpl. rewrite rev_involutive. reflexivity.
Qed.

Lemma endswith_longer (p pre s : str) :
  endswith p s = true -> endswith p (pre ++ s) = true.
Proof.
  rewrite !endswith_spec. intros [r ->]. exists (pre ++ r).
  apply app_assoc.
Qed.

Lemma closed_entry (t : str) :
  let t1 := if negb (ends_terminal t) then t ++ lit "." else t in
  let t2 :=
    if endswith (lit "].") t1 || endswith (lit ").") t1
    then but_last t1 else t1 in
  ends_terminal (strip t2) = true /\
  endswith (lit "].") (strip t2) = false /\
  endswith (lit ").") (strip t2) = false.
Proof.
  intros t1 t2.
  assert (H1 : ends_terminal t1 = true).
  { subst t1. destruct (ends_terminal t) eqn:Ht; simpl; [exact Ht|].
    change (lit ".") with [46]. apply ends_terminal_snoc. }
  assert (H2 : exists r c, t2 = r ++ [c] /\ terminal c = true /\
                           endswith (lit "].") t2 = false /\
                           endswith (lit ").") t2 = false).
  { subst t2. unfold but_last.
    destruct (endswith (lit "].") t1) eqn:Hb; simpl.
    - apply endswith_spec in Hb. destruct Hb as [u ->].
      exists u, 93. change (lit "].") with [93; 46].
      replace (u ++ [93; 46]) with ((u ++ [93]) ++ [46])
        by (rewrite <- app_assoc; reflexivity).
      rewrite removelast_last. repeat split.
      + unfold endswith. rewrite rev_app_distr. reflexivity.
      + unfold endswith. rewrite rev_app_distr. reflexivity.
    - destruct (endswith (lit ").") t1) eqn:Hp.
      + apply endswith_spec in Hp. destruct Hp as [u ->].
        exists u, 41. change (lit ").") with [41; 46].
        replace (u ++ [41; 46]) with ((u ++ [41]) ++ [46])
          by (rewrite <- app_assoc; reflexivity).
        rewrite removelast_last. repeat split.
        * unfold endswith. rewrite rev_app_distr. reflexivity.
        * unfold endswith. rewrite rev_app_distr. reflexivity.
      + destruct (ends_terminal_inv t1 H1) as [r [c [Hr Hc]]].
        exists r, c. repeat split; assumption. }
  destruct H2 as [r [c [Ht2 [Hc [Hnb Hnp]]]]].
  destruct (strip_snoc r c (terminal_not_space c Hc)) as [pre [r' [Hr Hs]]].
  rewrite Ht2, Hs. split; [|split].
  - rewrite ends_terminal_snoc. exact Hc.
  - destruct (endswith (lit "].") (r' ++ [c])) eqn:He; [|reflexivity].
    apply (endswith_longer _ pre) in He.
    rewrite app_assoc, <- Hr, <- Ht2, Hnb in He. discriminate.
  - destruct (endswith (lit ").") (r' ++ [c])) eqn:He; [|reflexivity].
    apply (endswith_longer _ pre) in He.
    rewrite app_assoc, <- Hr, <- Ht2, Hnp in He. discriminate.
Qed.

(** X5. Whatever the item, its bibliography entry ends with a period, a
    closing bracket, a closing parenthesis, a question mark or an exclamation
    mark, and never with "]." or ")."; in particular it is not empty. *)
Theorem entry_ends_with_terminal_punctuation (U : Unicode) (item : Item)
    (include_download_link : bool) :
  let entry := format_bibliography_entry U item include_download_link in
  ends_terminal entry = true /\
  endswith (lit "].") entry = false /\
  endswith (lit ").") entry = false /\
  entry <> [].
Proof.
  intro entry. subst entry. unfold format_bibliography_entry, finish_entry.
  cbv zeta.
  match goal with
  | |- ends_terminal (strip ?x) = _ /\ _ =>
      match x with
      | context [negb (ends_terminal ?t)] =>
          destruct (closed_entry t) as [H1 [H2 H3]]
      end
  end.
  cbv zeta in H1, H2, H3.
  repeat split; try assumption.
  intro Hnil. rewrite Hnil in H1. discriminate H1.
Qed.

(** ** The punctuation pass on a clean text *)

Lemma replace_aux_absent (old new s : str) :
  contains old s = false -> replace_aux old new 0 s = s.
Proof.
  induction s as [|c s IH]; [reflexivity|].
  cbn [contains replace_aux]. intro H.
  apply orb_false_iff in H. destruct H as [Hstart Hrest].
  rewrite Hstart, (IH Hrest). reflexivity.
Qed.

Lemma replace_absent (old new s : str) :
  contains old s = false -> replace old new s = s.
Proof. apply replace_aux_absent. Qed.

(** X6. The end of the composer leaves a clean text as it is: when the
    non-empty parts joined by single spaces have no blank at either end, none
    of the eight patterns of the punctuation pass, a terminal punctuation
    mark at the end but neither "]." nor ").", the entry is that text. *)
Theorem clean_text_is_unchanged (parts : list str) :
  let text := join (lit " ") (filter (fun p => negb (is_empty p)) parts) in
  strip text = text ->
  (forall p, In p cleaned_patterns -> contains p text = false) ->
  ends_terminal text = true ->
  endswith (lit "].") text = false -> endswith (lit ").") text = false ->
  finish_entry parts = text.
Proof.
  intros text Hstrip Hclean Hend Hb Hp. unfold finish_entry. cbv zeta.
  fold text. rewrite Hstrip.
  assert (Hpat : forall p new,
            In p cleaned_patterns -> replace p new text = text).
  { intros p new Hin. apply replace_absent, Hclean, Hin. }
  unfold cleaned_patterns in Hpat.
  rewrite !Hpat by (simpl; tauto).
  rewrite Hend. cbn [negb]. cbv iota. rewrite Hb, Hp. cbn [orb]. cbv iota.
  exact Hstrip.
Qed.

(** Three parts of a book entry that need no clean-up. *)
Lemma clean_text_is_unchanged_witness :
  finish_entry [lit "SILVA, J."; []; lit "Manual."; lit "2020."] =
  lit "SILVA, J. Manual. 2020.".
Proof.
  apply (clean_text_is_unchanged
           [lit "SILVA, J."; []; lit "Manual."; lit "2020."]);
    try reflexivity.
  intros p Hin. unfold cleaned_patterns in Hin. simpl in Hin.
  repeat (destruct Hin as [<-|Hin]; [reflexivity|]). destruct Hin.
Defined.

(** ** The year block applied twice *)

Lemma entry_year_chars (U : Unicode) (item : Item) :
  entry_year U item <> [] /\ ~ In 44 (entry_year U item).
Proof.
  unfold entry_year. rewrite year_or_default.
  destruct (_get_year_from_date U (date item)) as [y|] eqn:Hy.
  - apply get_year_some in Hy. destruct Hy as [Hlen [Hdig _]]. split.
    + intros ->. discriminate Hlen.
    + intro Hin. apply (proj1 (forallb_forall _ _) Hdig) in Hin.
      apply isdigit_char_ge in Hin. lia.
  - split; [discriminate|]. vm_compute. intuition discriminate.
Qed.

Lemma occurs_before_comma (y body : str) :
  y <> [] -> ~ In 44 y -> occurs_in y (body ++ lit ",") -> occurs_in y body.
Proof.
  intros Hne Hno [a [b H]]. change (lit ",") with [44] in H.
  destruct (exists_last (l := y) Hne) as [y' [c Hy]].
  destruct b as [|b0 b] using rev_ind.
  - exfalso. rewrite app_nil_r, Hy, app_assoc in H.
    apply app_inj_tail in H. destruct H as [_ Hc]. subst c.
    apply Hno. rewrite Hy. apply in_or_app. right. left. reflexivity.
  - clear IHb. rewrite !app_assoc in H. apply app_inj_tail in H.
    destruct H as [H _]. exists a, b. rewrite H, app_assoc. reflexivity.
Qed.

Lemma contains_self_period (y : str) : contains y (y ++ lit ".") = true.
Proof. apply contains_spec. exists [], (lit "."). reflexivity. Qed.

(** X7. The year block applied to its own result changes nothing: once it
    has run, the year stands in one of the last two parts, and a second run
    neither appends the year again nor rewrites a part. *)
Theorem year_block_twice (U : Unicode) (item : Item) (parts : list str) :
  existsb (contains (entry_year U item))
    (last_two (year_block U item parts)) = true /\
  year_block U item (year_block U item parts) = year_block U item parts.
Proof.
  destruct (entry_year_chars U item) as [Hne Hno].
  assert (Hstable : forall front x,
    existsb (contains (entry_year U item)) (last_two (front ++ [x])) = true ->
    endswith (lit ",") x = false ->
    year_block U item (front ++ [x]) = front ++ [x]).
  { intros front x Hseen Hend. unfold year_block. cbv zeta.
    rewrite Hseen. cbn [negb]. cbv iota. unfold last_of.
    rewrite last_last, Hend. reflexivity. }
  assert (Hcases : exists front x,
    year_block U item parts = front ++ [x] /\
    existsb (contains (entry_year U item)) (last_two (front ++ [x])) = true /\
    endswith (lit ",") x = false).
  { unfold year_block. cbv zeta.
    destruct (existsb (contains (entry_year U item)) (last_two parts))
      eqn:Hseen; cbn [negb]; cbv iota.
    - destruct parts as [|p0 parts0] using rev_ind; [discriminate Hseen|].
      clear IHparts0. unfold last_of, but_last.
      rewrite last_last, removelast_last.
      destruct (endswith (lit ",") p0) eqn:Hend.
      + apply endswith_spec in Hend. destruct Hend as [body ->].
        change (lit ",") with [44]. rewrite removelast_last.
        exists parts0, (body ++ lit "."). split; [reflexivity|].
        split; [|apply endswith_comma_period].
        rewrite last_two_snoc, existsb_app in Hseen |- *.
        apply orb_true_iff in Hseen. apply orb_true_iff.
        destruct Hseen as [Hseen|Hseen]; [left; exact Hseen|right].
        cbn [existsb] in Hseen |- *. rewrite orb_false_r in Hseen |- *.
        apply contains_spec. apply contains_spec in Hseen.
        apply occurs_before_comma in Hseen; [|exact Hne|exact Hno].
        destruct Hseen as [a [b ->]]. exists a, (b ++ lit ".").
        rewrite <- !app_assoc. reflexivity.
      + exists parts0, p0. repeat split; assumption.
    - exists parts, (entry_year U item ++ lit "."). split; [reflexivity|].
      split; [|apply endswith_comma_period].
      rewrite last_two_snoc, existsb_app. cbn [existsb].
      rewrite contains_self_period. rewrite orb_true_r. reflexivity. }
  destruct Hcases as [front [x [Heq [Hseen Hend]]]].
  rewrite Heq. split; [exact Hseen | apply Hstable; assumption].
Qed.

(** ** Entry points of the citation and of the entry *)

(** The first block leaves one part, and that part stays the first one. *)
Lemma entry_parts_head (U : Unicode) (item : Item) (incl : bool) :
  exists lead,
    fst (entry_point_block U item) = [lead] /\
    hd [] (entry_parts U item incl) = lead.
Proof.
  rewrite entry_parts_blocks.
  assert (Hplain : forall lead,
    hd [] (later_blocks U item false incl (title_block item false [lead]))
    = lead).
  { intro lead. apply later_blocks_keep_lead. rewrite title_block_segment.
    exists [title_segment item]. split; [reflexivity|]. left. discriminate. }
  assert (Htitle : forall t,
    hd [] (later_blocks U item true incl
             (title_block item true [t ++ lit "."])) = t ++ lit ".").
  { intro t. apply later_blocks_keep_lead. exists []. split; [reflexivity|].
    right. apply endswith_comma_period. }
  unfold entry_point_block.
  repeat match goal with
         | |- context [if ?b then _ else _] => destruct b
         end; cbn [fst snd]; eexists; (split; [reflexivity|]);
    first [apply Hplain | apply Htitle].
Qed.

(** ** The entry point in the returned entry *)

Lemma finish_entry_stages (parts : list str) :
  finish_entry parts =
  strip
    (close_text
       (replace (lit "  ") (lit " ")
          (replace (lit ";,") (lit ";")
             (replace (lit ":,") (lit ":")
                (replace (lit "..") (lit ".")
                   (replace (lit ",.") (lit ".")
                      (replace (lit " :") (lit ":")
                         (replace (lit " .") (lit ".")
                            (replace (lit " ,") (lit ",")
                               (strip
                                  (join (lit " ")
                                     (filter (fun p => negb (is_empty p))
                                        parts)))))))))))).
Proof. reflexivity. Qed.

Lemma lstrip_app_keep (s1 s2 : str) (c : char) (t : str) :
  s2 = c :: t -> isspace c = false ->
  exists pre r', s1 = pre ++ r' /\ lstrip (s1 ++ s2) = r' ++ s2.
Proof.
  intros -> Hc. induction s1 as [|a s1 IH]; simpl.
  - exists [], []. rewrite Hc. split; reflexivity.
  - destruct (isspace a).
    + destruct IH as [pre [r' [-> H]]]. exists (a :: pre), r'.
      split; [reflexivity | exact H].
    + exists [], (a :: s1). split; reflexivity.
Qed.

(** A prefix that begins and ends with characters that are no blanks is
    kept by [strip]. *)
Lemma strip_keeps_prefix (x : str) (c : char) (r : str) :
  lstrip (x ++ [c]) = x ++ [c] -> isspace c = false ->
  exists r', strip ((x ++ [c]) ++ r) = (x ++ [c]) ++ r'.
Proof.
  intros Hfront Hc.
  assert (Hl : lstrip ((x ++ [c]) ++ r) = (x ++ [c]) ++ r).
  { destruct x as [|a x]; simpl in *; [rewrite Hc; reflexivity|].
    destruct (isspace a) eqn:Ha; [|reflexivity]. exfalso.
    assert (Hlen : length (lstrip (x ++ [c])) = length (a :: x ++ [c]))
      by (rewrite Hfront; reflexivity).
    assert (Hle : forall s, (length (lstrip s) <= length s)%nat).
    { induction s as [|b s IHs]; simpl; [lia|].
      destruct (isspace b); simpl; lia. }
    specialize (Hle (x ++ [c])). simpl in Hlen. lia. }
  unfold strip. rewrite Hl, !rev_app_distr. cbn [rev app].
  destruct (lstrip_app_keep (rev r) (c :: rev x) c (rev x) eq_refl Hc)
    as [pre [r' [Hr Hk]]].
  rewrite Hk. exists (rev r'). rewrite rev_app_distr. cbn [rev].
  rewrite rev_involutive. reflexivity.
Qed.

(** A replacement of two characters by one keeps a prefix in which the
    pattern does not occur, when the prefix does not end with the first
    character of the pattern or the character put in is that one. *)
Lemma replace_keeps_prefix (p1 p2 n : char) (x : str) (c : char) (r : str) :
  contains [p1; p2] (x ++ [c]) = false -> p1 <> c \/ n = c ->
  exists r', replace [p1; p2] [n] ((x ++ [c]) ++ r) = (x ++ [c]) ++ r'.
Proof.
  unfold replace. intros Hno Hend. induction x as [|a x IH].
  - cbn [app replace_aux length Nat.sub].
    destruct (startswith [p1; p2] (c :: r)) eqn:Hs.
    + cbn [startswith] in Hs. apply andb_true_iff in Hs.
      destruct Hs as [Hp _]. apply N.eqb_eq in Hp.
      destruct Hend as [Hne | ->]; [congruence|].
      eexists. reflexivity.
    + eexists. reflexivity.
  - cbn [app contains] in Hno. apply orb_false_iff in Hno.
    destruct Hno as [Hstart Hrest]. destruct (IH Hrest) as [r' Hr'].
    cbn [app replace_aux].
    assert (Hs : startswith [p1; p2] (a :: (x ++ [c]) ++ r) = false).
    { destruct x as [|b x]; cbn [app startswith] in Hstart |- *;
        rewrite ?andb_true_r in Hstart |- *; exact Hstart. }
    rewrite Hs, Hr'. eexists. reflexivity.
Qed.

Lemma close_text_keeps_prefix (lead r : str) :
  endswith (lit "].") lead = false -> endswith (lit ").") lead = false ->
  exists r', close_text (lead ++ r) = lead ++ r'.
Proof.
  intros Hb Hp. unfold close_text. cbv zeta.
  assert (H1 : exists r1,
    (if negb (ends_terminal (lead ++ r)) then (lead ++ r) ++ lit "."
     else lead ++ r) = lead ++ r1).
  { destruct (negb (ends_terminal (lead ++ r)));
      [rewrite <- app_assoc|]; eexists; reflexivity. }
  destruct H1 as [r1 ->].
  destruct (endswith (lit "].") (lead ++ r1) || endswith (lit ").")
              (lead ++ r1)) eqn:Hdrop; [|eexists; reflexivity].
  destruct r1 as [|d r1].
  - rewrite app_nil_r, Hb, Hp in Hdrop. discriminate.
  - unfold but_last. rewrite removelast_app by discriminate.
    eexists. reflexivity.
Qed.

(** The closing pass keeps a first part that needs no cleaning and ends
    with a period or a closing bracket. *)
Lemma finish_entry_keeps_lead (x : str) (c : char) (rest : list str) :
  c = 46 \/ c = 93 -> needs_no_cleaning (x ++ [c]) ->
  startswith (x ++ [c]) (finish_entry ((x ++ [c]) :: rest)) = true.
Proof.
  intros Hc [Hfront [Hclean [Hb Hp]]].
  assert (Hspace : isspace c = false) by (destruct Hc as [->| ->]; reflexivity).
  assert (Hpat : forall p1 p2 n r,
    In [p1; p2] cleaned_patterns -> p1 <> c \/ n = c ->
    exists r', replace [p1; p2] [n] ((x ++ [c]) ++ r) = (x ++ [c]) ++ r').
  { intros p1 p2 n r Hin Hend. apply replace_keeps_prefix; [|exact Hend].
    apply Hclean. exact Hin. }
  set (P := fun s : str => exists r : str, s = (x ++ [c]) ++ r).
  assert (Hstrip : forall s, P s -> P (strip s)).
  { intros s [r ->]. apply strip_keeps_prefix; assumption. }
  assert (Hrep : forall p1 p2 n s,
            In [p1; p2] cleaned_patterns -> p1 <> c \/ n = c ->
            P s -> P (replace [p1; p2] [n] s)).
  { intros p1 p2 n s Hin Hend [r ->]. apply Hpat; assumption. }
  assert (Hclose : forall s, P s -> P (close_text s)).
  { intros s [r ->]. apply close_text_keeps_prefix; assumption. }
  assert (Hjoin : P (join (lit " ")
                       (filter (fun p => negb (is_empty p))
                          ((x ++ [c]) :: rest)))).
  { cbn [filter]. replace (is_empty (x ++ [c])) with false
      by (destruct x; reflexivity). cbn [negb].
    destruct (filter (fun p => negb (is_empty p)) rest) as [|q l].
    - exists []. rewrite app_nil_r. reflexivity.
    - rewrite join_cons by discriminate. eexists. reflexivity. }
  assert (Hall : P (finish_entry ((x ++ [c]) :: rest))).
  { rewrite finish_entry_stages. apply Hstrip, Hclose.
    apply (Hrep 32 32 32);
      [vm_compute; tauto | destruct Hc as [->| ->]; left; discriminate|].
    apply (Hrep 59 44 59);
      [vm_compute; tauto | destruct Hc as [->| ->]; left; discriminate|].
    apply (Hrep 58 44 58);
      [vm_compute; tauto | destruct Hc as [->| ->]; left; discriminate|].
    apply (Hrep 46 46 46);
      [vm_compute; tauto
      | destruct Hc as [->| ->]; [right; reflexivity | left; discriminate]|].
    apply (Hrep 44 46 46);
      [vm_compute; tauto | destruct Hc as [->| ->]; left; discriminate|].
    apply (Hrep 32 58 58);
      [vm_compute; tauto | destruct Hc as [->| ->]; left; discriminate|].
    apply (Hrep 32 46 46);
      [vm_compute; tauto | destruct Hc as [->| ->]; left; discriminate|].
    apply (Hrep 32 44 44);
      [vm_compute; tauto | destruct Hc as [->| ->]; left; discriminate|].
    apply Hstrip, Hjoin. }
  destruct Hall as [r ->]. apply startswith_app.
Qed.

Lemma bibliography_authors_period (U : Unicode) (l : list Author) :
  _format_authors_abnt U l false <> [] ->
  endswith (lit ".") (_format_authors_abnt U l false) = true.
Proof.
  rewrite format_authors_of_loop. cbv zeta iota. intro Hne.
  apply join_endswith; [|apply bibliography_loop_periods].
  intros Hnil. rewrite Hnil in Hne. apply Hne. reflexivity.
Qed.

(** The part the first block leaves ends with a period or with the bracket
    of "[S.A.]". *)
Lemma entry_point_block_end (U : Unicode) (item : Item) (lead : str) :
  fst (entry_point_block U item) = [lead] ->
  exists x c, lead = x ++ [c] /\ (c = 46 \/ c = 93).
Proof.
  unfold entry_point_block.
  destruct (is_empty (_format_authors_abnt U (authors item) false)) eqn:Ha;
    cbn [negb]; cbv iota.
  - repeat match goal with
           | |- context [if ?b then _ else _] => destruct b
           end; cbn [fst]; intro H; injection H as <-;
      first [ exists (lit "[S.A."), 93; split; [reflexivity | right; reflexivity]
            | eexists; exists 46; split; [reflexivity | left; reflexivity] ].
  - cbn [fst]. intro H. injection H as <-.
    apply is_empty_false in Ha.
    apply bibliography_authors_period, endswith_spec in Ha.
    destruct Ha as [x Hx]. exists x, 46. split; [exact Hx | left; reflexivity].
Qed.

(** The returned entry begins with the first assembled part when that part
    needs no cleaning. *)
Lemma entry_begins_with_lead (U : Unicode) (item : Item) (incl : bool) :
  needs_no_cleaning (hd [] (entry_parts U item incl)) ->
  startswith (hd [] (entry_parts U item incl))
    (format_bibliography_entry U item incl) = true.
Proof.
  destruct (entry_parts_head U item incl) as [lead [Hblock Hhd]].
  rewrite Hhd. intro Hclean.
  destruct (entry_point_block_end U item lead Hblock) as [x [c [-> Hc]]].
  unfold format_bibliography_entry.
  destruct (entry_parts U item incl) as [|p rest] eqn:Hparts.
  - cbn [hd] in Hhd. destruct x; discriminate Hhd.
  - cbn [hd] in Hhd. subst p. apply finish_entry_keeps_lead; assumption.
Qed.

(** The author string of the book of Ana P. Silva has two periods at its
    end, and the entry of the book does not begin with it. *)
Lemma author_string_does_not_lead :
  _format_authors_abnt latin1 (authors ana_book) false =
  lit "SILVA, Ana P.." /\
  format_bibliography_entry latin1 ana_book true =
  lit "SILVA, Ana P. **Manual**. Recife: Atlas, 2020." /\
  startswith (_format_authors_abnt latin1 (authors ana_book) false)
    (format_bibliography_entry latin1 ana_book true) = false.
Proof. repeat split; vm_compute; reflexivity. Qed.

(** C1, amended.  The entry point, the first assembled part of the entry,
    is chosen in this order: the author string when it is not empty; else the
    uppercased publisher and a period when there is a publisher and the
    authors list is empty; else the uppercased title and a period when there
    is a title, whatever the item type, and then no title segment follows it;
    else "[S.A.]".  The returned entry is the punctuation pass on the parts
    joined by spaces, and it begins with the entry point whenever the pass
    finds nothing to rewrite in it: no blank at its beginning, none of the
    eight patterns, no "]." or ")." at its end. *)
Theorem entry_point_leads_the_entry (U : Unicode) (item : Item)
    (include_download_link : bool) :
  let a := _format_authors_abnt U (authors item) false in
  let corporate :=
    truthy (publisher item) &&
    match authors item with [] => true | _ :: _ => false end in
  let by_title := is_empty a && negb corporate && truthy (title item) in
  let lead :=
    if negb (is_empty a) then a
    else if corporate then upper U (get_or (publisher item) []) ++ lit "."
    else if truthy (title item)
    then upper U (get_or (title item) []) ++ lit "."
    else lit "[S.A.]" in
  hd [] (entry_parts U item include_download_link) = lead /\
  entry_parts U item include_download_link =
  later_blocks U item by_title include_download_link
    (if by_title then [lead] else [lead; title_segment item]) /\
  format_bibliography_entry U item include_download_link =
  finish_entry (entry_parts U item include_download_link) /\
  (needs_no_cleaning lead ->
   startswith lead (format_bibliography_entry U item include_download_link)
   = true).
Proof.
  intros a corporate by_title lead.
  destruct (entry_point_priority U item include_download_link) as [Hhd Hparts].
  fold a corporate by_title lead in Hhd, Hparts.
  split; [exact Hhd|]. split; [exact Hparts|]. split; [reflexivity|].
  intro Hclean. rewrite <- Hhd. apply entry_begins_with_lead.
  rewrite Hhd. exact Hclean.
Qed.

(** The entry of a book of João Silva begins with its author string. *)
Lemma entry_point_leads_the_entry_witness :
  startswith (lit "SILVA, Jo" ++ [227] ++ lit "o.")
    (format_bibliography_entry latin1 silva_2020 true) = true.
Proof.
  apply (proj2 (proj2 (proj2 (entry_point_leads_the_entry latin1 silva_2020
                                true)))).
  split; [reflexivity|]. split; [|split; reflexivity].
  intros p Hin. unfold cleaned_patterns in Hin. simpl in Hin.
  repeat (destruct Hin as [<-|Hin]; [reflexivity|]). destruct Hin.
Defined.

Lemma citation_step_nil (U : Unicode) (a : Author) :
  surname a = [] -> format_author_step U true [] a = [].
Proof.
  rewrite <- author_names_surname. unfold format_author_step.
  destruct (author_names a) as [last_name first_name]. simpl fst.
  intros ->. reflexivity.
Qed.

Lemma citation_authors_nil (U : Unicode) (l : list Author) :
  Forall (fun a => surname a = []) l -> _format_authors_abnt U l true = [].
Proof.
  intro H. rewrite format_authors_of_loop. cbv zeta iota.
  replace (flat_map (format_author_step U true []) l) with (@nil str);
    [reflexivity|].
  induction H as [|a l Ha Hl IH]; [reflexivity|].
  cbn [flat_map]. rewrite citation_step_nil by exact Ha. exact IH.
Qed.

Lemma bibliography_authors_nil (U : Unicode) (l : list Author) :
  Forall (fun a => surname a = []) l -> _format_authors_abnt U l false = [].
Proof.
  intro H. rewrite format_authors_of_loop. cbv zeta iota.
  rewrite (proj2 (bibliography_loop_nil U l) H). reflexivity.
Qed.

Lemma no_authors_no_string (U : Unicode) (fc : bool) :
  _format_authors_abnt U [] fc = [].
Proof. reflexivity. Qed.

(** X8. For a book or a report the place and the publisher are appended,
    with "[S.l.]" and "[s.n.]" for a missing key, in every case but one: an
    item without authors and without publisher that has a title (its entry
    point is the title).  So a book without authors whose publisher is the
    entry point names the publisher a second time.  Other item types get
    neither part. *)
Theorem place_and_publisher_rule (U : Unicode) (item : Item)
    (parts : list str) :
  let flag := snd (entry_point_block U item) in
  let omitted :=
    match authors item with [] => true | _ :: _ => false end
    && negb (truthy (publisher item)) && truthy (title item) in
  publisher_block item flag (place_block item flag parts) =
  if book_or_report item && negb omitted
  then parts ++ [get_or (place item) (lit "[S.l.]") ++ lit ":";
                 get_or (publisher item) (lit "[s.n.]") ++ lit ","]
  else parts.
Proof.
  intros flag omitted. subst flag omitted.
  unfold publisher_block, place_block, entry_point_block.
  destruct (book_or_report item); [|reflexivity]. cbn [andb].
  destruct (authors item) as [|a l].
  - rewrite no_authors_no_string. cbn [is_empty negb length Nat.eqb andb].
    destruct (truthy (publisher item)); cbn [andb negb snd orb].
    + rewrite <- app_assoc. reflexivity.
    + destruct (truthy (title item));
        [destruct (field_is (itemType item) (lit "webpage"))|];
        rewrite ?andb_false_r; cbn [andb negb snd orb];
        rewrite <- ?app_assoc; reflexivity.
  - cbn [length Nat.eqb negb andb]. rewrite !orb_true_r.
    rewrite <- app_assoc. reflexivity.
Qed.

#[local] Ltac clean_by_evaluation :=
  split; [reflexivity|]; split; [|split; reflexivity];
  let p := fresh "p" in
  let Hin := fresh "Hin" in
  intros p Hin; unfold cleaned_patterns in Hin; simpl in Hin;
  repeat (destruct Hin as [<-|Hin]; [reflexivity|]); destruct Hin.

(** X9. For a webpage without authors that has a title and a publisher, the
    in-text citation and the bibliography entry do not start from the same
    element: the author of the citation is the first three words of the
    title, the first assembled part of the entry is the uppercased publisher
    and a period, and the returned entry begins with that part whenever the
    punctuation pass finds nothing to rewrite in it. *)
Theorem webpage_citation_and_entry_differ (U : Unicode) (item : Item)
    (incl : bool) :
  authors item = [] -> itemType item = Some (lit "webpage") ->
  truthy (title item) = true -> truthy (publisher item) = true ->
  let title_words := split_ws (upper U (get_or (title item) [])) in
  let lead := upper U (get_or (publisher item) []) ++ lit "." in
  citation_author_str U item =
  join (lit " ") (firstn 3 title_words) ++
  (if (3 <? length title_words)%nat then lit "..." else []) /\
  hd [] (entry_parts U item incl) = lead /\
  (needs_no_cleaning lead ->
   startswith lead (format_bibliography_entry U item incl) = true).
Proof.
  intros Hau Htype Htitle Hpub title_words lead. subst title_words lead.
  assert (Hhd : hd [] (entry_parts U item incl) =
                upper U (get_or (publisher item) []) ++ lit ".").
  { destruct (entry_parts_head U item incl) as [lead [Hlead ->]].
    unfold entry_point_block in Hlead.
    rewrite Hau, Hpub, no_authors_no_string in Hlead.
    cbn [is_empty negb length Nat.eqb andb fst] in Hlead.
    injection Hlead as <-. reflexivity. }
  split; [|split; [exact Hhd|]].
  - unfold citation_author_str. cbv zeta.
    rewrite Hau, Htype, Htitle, no_authors_no_string.
    cbn [is_empty field_is andb].
    change (str_eqb (lit "webpage") (lit "webpage")) with true. cbv iota.
    destruct (3 <? length (split_ws (upper U (get_or (title item) []))))%nat;
      [reflexivity | rewrite app_nil_r; reflexivity].
  - intro Hclean. rewrite <- Hhd. apply entry_begins_with_lead.
    rewrite Hhd. exact Hclean.
Qed.

(** A webpage of an agency: cited by its title, filed under the agency. *)
Lemma webpage_citation_and_entry_differ_witness :
  let page :=
    {| itemType := Some (lit "webpage"); authors := [];
       title := Some (lit "Censo 2022"); subtitle := None;
       publicationTitle := None; journalPlace := None; volume := None;
       issue := None; pages := None; date := Some (lit "2023");
       edition := None; place := None; publisher := Some (lit "IBGE");
       series := None; seriesNumber := None; url := None;
       accessDate := None; doi := None; local_pdf_path := None |} in
  citation_author_str latin1 page = lit "CENSO 2022" /\
  hd [] (entry_parts latin1 page true) = lit "IBGE." /\
  startswith (lit "IBGE.") (format_bibliography_entry latin1 page true)
  = true.
Proof.
  intro page.
  destruct (webpage_citation_and_entry_differ latin1 page true
              eq_refl eq_refl eq_refl eq_refl) as [Hc [Hh Hs]].
  split; [exact Hc|]. split; [exact Hh|].
  apply Hs. clean_by_evaluation.
Defined.

(** X10. The publisher stands for the author only when the authors list is
    empty.  When the list has authors but none with a resolvable surname, the
    in-text citation has no author but the title words of a webpage, and the
    first assembled part of the entry is the uppercased title and a period,
    or "[S.A.]" when there is no title, whether or not the item has a
    publisher; the returned entry begins with that part whenever the
    punctuation pass finds nothing to rewrite in it. *)
Theorem publisher_needs_empty_authors (U : Unicode) (item : Item)
    (a : Author) (rest : list Author) (incl : bool) :
  authors item = a :: rest ->
  Forall (fun b => surname b = []) (a :: rest) ->
  let lead :=
    if truthy (title item)
    then upper U (get_or (title item) []) ++ lit "."
    else lit "[S.A.]" in
  citation_author_str U item =
  (if field_is (itemType item) (lit "webpage") && truthy (title item)
   then
     let title_words := split_ws (upper U (get_or (title item) [])) in
     join (lit " ") (firstn 3 title_words) ++
     (if (3 <? length title_words)%nat then lit "..." else [])
   else []) /\
  hd [] (entry_parts U item incl) = lead /\
  (needs_no_cleaning lead ->
   startswith lead (format_bibliography_entry U item incl) = true).
Proof.
  intros Hau Hnone lead. subst lead.
  assert (Hhd : hd [] (entry_parts U item incl) =
                if truthy (title item)
                then upper U (get_or (title item) []) ++ lit "."
                else lit "[S.A.]").
  { destruct (entry_parts_head U item incl) as [lead [Hlead ->]].
    unfold entry_point_block in Hlead. rewrite Hau in Hlead.
    rewrite (bibliography_authors_nil U _ Hnone) in Hlead.
    cbn [is_empty negb length Nat.eqb] in Hlead.
    rewrite andb_false_r in Hlead.
    destruct (truthy (title item));
      [destruct (field_is (itemType item) (lit "webpage"))|];
      cbn [andb fst] in Hlead; rewrite ?andb_false_r in Hlead;
      cbn [fst] in Hlead; injection Hlead as <-; reflexivity. }
  split; [|split; [exact Hhd|]].
  - unfold citation_author_str. cbv zeta.
    rewrite Hau, (citation_authors_nil U _ Hnone).
    cbn [is_empty length Nat.eqb]. rewrite andb_false_r.
    destruct (field_is (itemType item) (lit "webpage")
              && truthy (title item)); [|reflexivity].
    destruct (3 <? length (split_ws (upper U (get_or (title item) []))))%nat;
      [reflexivity | rewrite app_nil_r; reflexivity].
  - intro Hclean. rewrite <- Hhd. apply entry_begins_with_lead.
    rewrite Hhd. exact Hclean.
Qed.

(** A book whose only author dictionary is empty, with a publisher. *)
Lemma publisher_needs_empty_authors_witness :
  let book :=
    {| itemType := Some (lit "book"); authors := [no_author];
       title := Some (lit "Manual"); subtitle := None;
       publicationTitle := None; journalPlace := None; volume := None;
       issue := None; pages := None; date := Some (lit "2020");
       edition := None; place := None; publisher := Some (lit "Atlas");
       series := None; seriesNumber := None; url := None;
       accessDate := None; doi := None; local_pdf_path := None |} in
  citation_author_str latin1 book = [] /\
  hd [] (entry_parts latin1 book true) = lit "MANUAL." /\
  startswith (lit "MANUAL.") (format_bibliography_entry latin1 book true)
  = true.
Proof.
  intro book.
  destruct (publisher_needs_empty_authors latin1 book no_author [] true
              eq_refl ltac:(constructor; [reflexivity | constructor]))
    as [Hc [Hh Hs]].
  split; [exact Hc|]. split; [exact Hh|].
  apply Hs. clean_by_evaluation.
Defined.

Lemma upper_nil_inv (U : Unicode) (s : str) : upper U s <> [] -> s <> [].
Proof. intros H ->. apply H. reflexivity. Qed.

Lemma startswith_self_app (p r : str) : startswith p (p ++ r) = true.
Proof. apply startswith_app. Qed.

(** X11. When the first author has a lastName, the entry point of the sort
    key is that name uppercased, and both the first part of the bibliography
    entry and the author string of the in-text citation begin with it: the
    entries are sorted by what they begin with. *)
Theorem sort_entry_point_leads_the_entry (U : Unicode) (item : Item)
    (a : Author) (rest : list Author) (s : str) (incl : bool) :
  authors item = a :: rest -> lastName a = Some s -> upper U s <> [] ->
  fst (fst (sort_key U item)) = upper U s /\
  startswith (upper U s) (hd [] (entry_parts U item incl)) = true /\
  startswith (upper U s) (citation_author_str U item) = true.
Proof.
  intros Hau Hlast Hup. pose proof (upper_nil_inv U s Hup) as Hs.
  assert (Hnames : author_names a = (s, get_or (firstName a) [])).
  { unfold author_names. rewrite Hlast. cbn [get_or].
    destruct s; [congruence | reflexivity]. }
  assert (Hstep : forall fc, exists tail,
            format_author_step U fc [] a = [upper U s ++ tail]).
  { intro fc. unfold format_author_step. rewrite Hnames.
    destruct s as [|c s]; [congruence|]. cbn [is_empty app].
    repeat match goal with
           | |- context [if ?b then _ else _] => destruct b
           end;
      first [ exists []; rewrite app_nil_r; reflexivity
            | eexists; reflexivity ]. }
  assert (Hstr : forall fc, exists tail,
            _format_authors_abnt U (a :: rest) fc = upper U s ++ tail).
  { intro fc. rewrite format_authors_of_loop. cbv zeta. cbn [flat_map].
    destruct (Hstep fc) as [tail ->]. cbn [app].
    destruct (flat_map (format_author_step U fc []) rest) as [|s2 [|s3 r]];
      destruct fc; cbn [join]; rewrite <- ?app_assoc; eexists; reflexivity. }
  assert (Hnonempty : forall tail, is_empty (upper U s ++ tail) = false).
  { intro tail. destruct (upper U s); [congruence | reflexivity]. }
  split; [|split].
  - unfold sort_key. rewrite Hau, Hlast. cbv zeta. cbn [fst get_or].
    destruct (upper U s) eqn:Hu; [congruence|]. reflexivity.
  - destruct (entry_parts_head U item incl) as [lead [Hlead ->]].
    unfold entry_point_block in Hlead. rewrite Hau in Hlead.
    destruct (Hstr false) as [tail Htail]. rewrite Htail in Hlead.
    rewrite Hnonempty in Hlead. cbn [negb fst] in Hlead.
    injection Hlead as <-. apply startswith_self_app.
  - unfold citation_author_str. cbv zeta. rewrite Hau.
    destruct (Hstr true) as [tail Htail]. rewrite Htail, Hnonempty.
    apply startswith_self_app.
Qed.

(** Scenario A: sorted under SILVA, entered and cited as SILVA. *)
Lemma sort_entry_point_leads_the_entry_witness :
  fst (fst (sort_key latin1 scenario_A)) = lit "SILVA" /\
  startswith (lit "SILVA") (hd [] (entry_parts latin1 scenario_A true))
  = true /\
  startswith (lit "SILVA") (citation_author_str latin1 scenario_A) = true.
Proof.
  apply (sort_entry_point_leads_the_entry latin1 scenario_A
           (author (lit "Silva") joao) [] (lit "Silva") true).
  - reflexivity.
  - reflexivity.
  - discriminate.
Defined.

(** ** The arrangement of the bibliography *)

Lemma str_compare_antisym (a b : str) :
  str_compare b a = CompOpp (str_compare a b).
Proof.
  revert b. induction a as [|x a IH]; intros [|y b]; simpl; try reflexivity.
  rewrite (N.compare_antisym x y).
  destruct (x ?= y); simpl; [apply IH | reflexivity | reflexivity].
Qed.

Lemma key_compare_antisym (k1 k2 : str * str * str) :
  key_compare k2 k1 = CompOpp (key_compare k1 k2).
Proof.
  destruct k1 as [[e1 y1] t1], k2 as [[e2 y2] t2]. unfold key_compare.
  rewrite (str_compare_antisym e1 e2), (str_compare_antisym y1 y2),
    (str_compare_antisym t1 t2).
  destruct (str_compare e1 e2); simpl; try reflexivity.
  destruct (str_compare y1 y2); reflexivity.
Qed.

Lemma lex_lt_compare (a b : str) : lex_lt a b -> str_compare a b = Lt.
Proof.
  induction 1 as [c b|x y a b Hxy|x a b Hab IH]; simpl.
  - reflexivity.
  - apply N.compare_lt_iff in Hxy. rewrite Hxy. reflexivity.
  - rewrite N.compare_refl. exact IH.
Qed.

Lemma key_le_compare (k1 k2 : str * str * str) :
  key_le k1 k2 -> key_compare k1 k2 <> Gt.
Proof.
  destruct k1 as [[e1 y1] t1], k2 as [[e2 y2] t2]. unfold key_le, key_compare.
  intros [He|[-> [Hy|[-> [Ht| ->]]]]].
  - rewrite (lex_lt_compare _ _ He). discriminate.
  - rewrite str_compare_refl, (lex_lt_compare _ _ Hy). discriminate.
  - rewrite !str_compare_refl, (lex_lt_compare _ _ Ht). discriminate.
  - rewrite !str_compare_refl. discriminate.
Qed.

Lemma key_le_not_lt (k1 k2 : str * str * str) :
  key_le k1 k2 -> key_lt k2 k1 = false.
Proof.
  intro H. apply key_le_compare in H. unfold key_lt.
  rewrite key_compare_antisym. destruct (key_compare k1 k2);
    [reflexivity | reflexivity | congruence].
Qed.

Lemma key_le_lt (k1 k2 : str * str * str) :
  key_le k1 k2 -> k1 <> k2 -> key_lt k1 k2 = true.
Proof.
  intros H Hne. apply key_le_compare in H. unfold key_lt.
  destruct (key_compare k1 k2) eqn:Hc;
    [apply key_compare_eq in Hc; contradiction | reflexivity | congruence].
Qed.

Lemma key_lt_asym (k1 k2 : str * str * str) :
  key_lt k1 k2 = true -> key_lt k2 k1 = true -> False.
Proof.
  unfold key_lt. rewrite (key_compare_antisym k1 k2).
  destruct (key_compare k1 k2); simpl; discriminate.
Qed.

Section Arrangement.

Variable A : Type.
Variable key : A -> str * str * str.

Lemma sorted_of_ordered (l : list A) :
  StronglySorted (fun x y => key_le (key x) (key y)) l -> sorted key l = l.
Proof.
  induction 1 as [|x l Hl IH Hall]; [reflexivity|].
  cbn [sorted]. rewrite IH. destruct l as [|y l]; [reflexivity|].
  cbn [insert_sorted]. inversion Hall as [|y' l' Hxy _]; subst.
  rewrite (key_le_not_lt _ _ Hxy). reflexivity.
Qed.

Lemma strictly_ordered (l : list A) :
  StronglySorted (fun x y => key_le (key x) (key y)) l ->
  NoDup (map key l) ->
  StronglySorted (fun x y => key_lt (key x) (key y) = true) l.
Proof.
  induction 1 as [|x l Hl IH Hall]; intro Hnd; [constructor|].
  cbn [map] in Hnd. inversion Hnd as [|k ks Hnotin Hnd']; subst.
  constructor; [apply IH; exact Hnd'|].
  apply Forall_forall. intros z Hz.
  apply key_le_lt; [exact (proj1 (Forall_forall _ _) Hall z Hz)|].
  intro Heq. apply Hnotin. rewrite Heq. apply in_map. exact Hz.
Qed.

Lemma strictly_ordered_unique (l1 l2 : list A) :
  StronglySorted (fun x y => key_lt (key x) (key y) = true) l1 ->
  StronglySorted (fun x y => key_lt (key x) (key y) = true) l2 ->
  Permutation l1 l2 -> l1 = l2.
Proof.
  intro H1. revert l2. induction H1 as [|x l1 Hl1 IH Hall1];
    intros l2 H2 Hperm.
  - apply Permutation_nil in Hperm. subst. reflexivity.
  - destruct l2 as [|y l2];
      [apply Permutation_sym, Permutation_nil in Hperm; discriminate|].
    inversion H2 as [|y' l2' Hl2 Hall2]; subst.
    assert (Hxy : x = y).
    { assert (Hx : In x (y :: l2))
        by (apply (Permutation_in _ Hperm); left; reflexivity).
      assert (Hy : In y (x :: l1))
        by (apply (Permutation_in _ (Permutation_sym Hperm)); left;
            reflexivity).
      destruct Hx as [Hx|Hx]; [symmetry; exact Hx|].
      destruct Hy as [Hy|Hy]; [exact Hy|]. exfalso.
      apply (key_lt_asym (key x) (key y)).
      - exact (proj1 (Forall_forall _ _) Hall1 y Hy).
      - exact (proj1 (Forall_forall _ _) Hall2 x Hx). }
    subst y. f_equal. apply IH; [exact Hl2|].
    exact (Permutation_cons_inv Hperm).
Qed.

Lemma sorted_of_permutation (l1 l2 : list A) :
  Permutation l1 l2 -> NoDup (map key l1) -> sorted key l1 = sorted key l2.
Proof.
  intros Hperm Hnd.
  assert (Hnd2 : NoDup (map key l2))
    by (apply (Permutation_NoDup (Permutation_map key Hperm)); exact Hnd).
  apply strictly_ordered_unique.
  - apply strictly_ordered; [apply sorted_ordered|].
    apply (Permutation_NoDup (Permutation_map key (sorted_perm A key l1))).
    exact Hnd.
  - apply strictly_ordered; [apply sorted_ordered|].
    apply (Permutation_NoDup (Permutation_map key (sorted_perm A key l2))).
    exact Hnd2.
  - apply perm_trans with l1;
      [apply Permutation_sym, sorted_perm|].
    apply perm_trans with l2; [exact Hperm | apply sorted_perm].
Qed.

End Arrangement.

Lemma generate_bibliography_sorted (U : Unicode) (items : list Item)
    (incl : bool) :
  generate_bibliography U items incl =
  join [10; 10]
    (map (fun i => format_bibliography_entry U i incl)
       (sorted (sort_key U) items)).
Proof. unfold generate_bibliography. destruct items; reflexivity. Qed.

(** X12. Items of the same sort key stand in the bibliography in the order
    in which they were given: the sort is stable. *)
Theorem bibliography_is_stable (U : Unicode) (items : list Item)
    (incl : bool) :
  exists ordered,
    generate_bibliography U items incl =
    join [10; 10] (map (fun i => format_bibliography_entry U i incl) ordered)
    /\
    forall k,
      filter (same_key (sort_key U) k) ordered =
      filter (same_key (sort_key U) k) items.
Proof.
  exists (sorted (sort_key U) items). split.
  - apply generate_bibliography_sorted.
  - intro k. apply sorted_stable.
Qed.

(** X13. Items given in ascending order of their keys are left in that
    order: the bibliography is their entries in the order given. *)
Theorem ordered_items_keep_their_order (U : Unicode) (items : list Item)
    (incl : bool) :
  StronglySorted (fun i j => key_le (sort_key U i) (sort_key U j)) items ->
  generate_bibliography U items incl =
  join [10; 10] (map (fun i => format_bibliography_entry U i incl) items).
Proof.
  intro H. rewrite generate_bibliography_sorted, sorted_of_ordered;
    [reflexivity | exact H].
Qed.

(** The two SILVA items, given in the order of their years. *)
Lemma ordered_items_keep_their_order_witness :
  generate_bibliography latin1 [silva_2019; silva_2020] true =
  join [10; 10]
    [format_bibliography_entry latin1 silva_2019 true;
     format_bibliography_entry latin1 silva_2020 true].
Proof.
  apply (ordered_items_keep_their_order latin1 [silva_2019; silva_2020] true).
  apply SSorted_cons;
    [apply SSorted_cons; [apply SSorted_nil | apply Forall_nil]|].
  apply Forall_cons; [|apply Forall_nil].
  change (key_le (lit "SILVA", [50; 48; 49; 57], [])
            (lit "SILVA", [50; 48; 50; 48], [])).
  right. split; [reflexivity|]. left.
  apply lex_lt_tail, lex_lt_tail, lex_lt_head. reflexivity.
Defined.

(** X14. When the sort keys of the items are pairwise distinct, the
    bibliography does not depend on the order in which the items are
    given. *)
Theorem bibliography_of_a_permutation (U : Unicode) (items1 items2 : list Item)
    (incl : bool) :
  Permutation items1 items2 -> NoDup (map (sort_key U) items1) ->
  generate_bibliography U items1 incl = generate_bibliography U items2 incl.
Proof.
  intros Hperm Hnd. rewrite !generate_bibliography_sorted.
  rewrite (sorted_of_permutation Item (sort_key U) items1 items2 Hperm Hnd).
  reflexivity.
Qed.

(** The two SILVA items in the two orders. *)
Lemma bibliography_of_a_permutation_witness :
  generate_bibliography latin1 [silva_2020; silva_2019] false =
  generate_bibliography latin1 [silva_2019; silva_2020] false.
Proof.
  apply bibliography_of_a_permutation.
  - apply perm_swap.
  - constructor; [|constructor; [|constructor]].
    + intros [H|[]]. vm_compute in H. discriminate H.
    + intros [].
Defined.

(** ** The page in the in-text citation *)

(** X15. Giving a page changes the in-text citation only by ", p. " and
    the page before the closing parenthesis; the sentinel "[s.n.]" is
    returned with a page as it is without one. *)
Theorem page_is_appended_to_the_citation (U : Unicode) (item : Item)
    (c : char) (p : str) :
  (format_in_text_citation U item None = lit "[s.n.]" /\
   format_in_text_citation U item (Some (c :: p)) = lit "[s.n.]") \/
  (exists body,
     format_in_text_citation U item None = lit "(" ++ body ++ lit ")" /\
     format_in_text_citation U item (Some (c :: p)) =
     lit "(" ++ body ++ lit ", p. " ++ (c :: p) ++ lit ")").
Proof.
  destruct (format_in_text_citation_cases U item None)
    as [[Ha [Hy Hnone]]|[Hor Hnone]];
    destruct (format_in_text_citation_cases U item (Some (c :: p)))
      as [[Ha' [Hy' Hpage]]|[Hor' Hpage]].
  - left. split; assumption.
  - exfalso. destruct Hor' as [H|H]; contradiction.
  - exfalso. destruct Hor as [H|H]; contradiction.
  - right. eexists. split; [exact Hnone|]. rewrite Hpage.
    unfold citation_parts_of.
    set (front := (if is_empty (citation_author_str U item) then []
                   else [citation_author_str U item]) ++
                  [match _get_year_from_date U (date item) with
                   | Some y => y
                   | None => lit "s.d."
                   end]).
    replace (join (lit ", ") (_ ++ _ ++ [])) with (join (lit ", ") front)
      by (subst front; rewrite !app_nil_r; reflexivity).
    replace ((if is_empty (citation_author_str U item) then []
              else [citation_author_str U item]) ++
             [match _get_year_from_date U (date item) with
              | Some y => y
              | None => lit "s.d."
              end] ++ [lit "p. " ++ c :: p])
      with (front ++ [lit "p. " ++ c :: p])
      by (subst front; rewrite <- app_assoc; reflexivity).
    rewrite join_last.
    + rewrite <- !app_assoc. reflexivity.
    + subst front. destruct (is_empty (citation_author_str U item));
        discriminate.
Qed.

(** ** The authors of the entry *)




